(** * Sepolia faucet bot: a shallow embedding of [src/bot.py]

    The bot is one class, [SepoliaFaucetBot], whose methods talk to four
    outside parties: the chain RPC node (web3), the faucet HTTP endpoint
    (requests), the Tor control port (stem) and the operating system
    (urandom, the clock, sleeping, the console).  The embedding keeps the
    methods as they are written and makes the outside parties explicit:

    - every external call appends an [event] to a trace (newest first);
    - what the outside answers is read from an environment [env]: one feed
      per primitive, indexed by how many calls of that primitive the trace
      already holds.  An answer is a value or a Python exception;
    - a method is a function from the trace to a [result] and a new trace.
      [Raise] is a Python exception leaving the method, [OutOfFuel] stands
      for an unbounded [while] loop that is still running.

    Integers are Python integers ([Z]); floats and decimals are the
    rationals they denote ([Q]), with the two library conversions
    ([from_wei], [float]) left to the environment. *)

From Stdlib Require Import ZArith QArith List String Ascii Bool Lia.
Import ListNotations.
Open Scope string_scope.
Open Scope Z_scope.

(** ** Data *)

Definition address := string.
Definition privkey := string.
Definition bytes := string.

(** The exception classes the code tells apart.  [KeyboardInterrupt] is the
    operator interrupt; it is not an [Exception] in Python's hierarchy, the
    three others are. *)
Inductive exn : Type :=
| KeyboardInterrupt
| ReadTimeout
| ConnectionError (msg : string)
| OtherException (msg : string).

(** [isinstance(e, Exception)] *)
Definition is_Exception (e : exn) : bool :=
  match e with
  | KeyboardInterrupt => false
  | _ => true
  end.

Inductive reply (A : Type) : Type :=
| Val (a : A)
| Exc (e : exn).
Arguments Val {A} a.
Arguments Exc {A} e.

(** The dict returned by [generate_random_account]. *)
Record account : Type := mkAccount {
  private_key : privkey;
  acct_address : address
}.

(** The dict built at lines 177-183. *)
Record transaction : Type := mkTransaction {
  tx_nonce : Z;
  tx_to : address;
  tx_value : Z;
  tx_gas : Z;
  tx_gasPrice : Z
}.

Record receipt : Type := mkReceipt {
  rc_status : Z;
  rc_blockNumber : Z
}.

(** Console lines, one constructor per [print] of the class (the source
    line is given where two messages look alike). *)
Inductive log : Type :=
| LogBalanceError (a : address) (e : exn)
| LogTorChanged (attempt : Z)
| LogTorError (attempt : Z) (e : exn)
| LogTorRetrying (delay : Z)
| LogTorGaveUp
| LogPreparingIp (a : address)
| LogTorProceeding
| LogRequesting (a : address)
| LogResponse (status : Z)
| LogFaucetOk
| LogFaucetFailed (status : Z)
| LogRawResponse (content : bytes)
| LogReadTimeout
| LogConnectionReset
| LogMaxRetries
| LogFaucetError (e : exn)
| LogFundsReceivedOnCheck (i : Z) (balance : Q)
| LogCheckingAttempt (i : Z) (total : Z) (balance : Q)
| LogAttemptTransfer (retry_count : Z)
| LogTransferred
| LogTransferRetry (delay : Z)
| LogFundsGone
| LogInsufficient (balance_eth gas_cost_eth : Q)
| LogTransferInitiated (tx_hash : bytes)
| LogSent (send_amount_eth : Q) (to_address : address)
| LogWaitingConfirmation
| LogConfirmed (block : Z)
| LogTransferFailed
| LogTransferError (e : exn)
| LogWaiting (a : address)
| LogFundsReceived (balance : Q)
| LogChecking (balance : Q)
| LogTimeout
| LogStart
| LogRecipient (recipient : address)
| LogSeparator
| LogCycle (n : Z)
| LogReusing (a : option address)
| LogGenerated (a : option address)
| LogPrivateKey (k : privkey)
| LogInitialBalance (balance : Q)
| LogCycleCompleted (n : Z)
| LogCycleTransferFailed (n : Z)
| LogMaxRetriesReuse
| LogTransactionReplacedReuse
| LogReplacementUnderpricedReuse
| LogRateLimitDetected
| LogRecheckSecond
| LogSecondOk
| LogNoAdditional
| LogNoFundsAfterChecks
| LogForbiddenReuse
| LogAccessRestricted (delay : Z)
| LogTimeoutRetry (delay : Z)
| LogConnectionResetRetry (delay : Z)
| LogCycleFailed (n : Z)
| LogNextCycle (delay : Z)
| LogStopped
| LogUnexpected (n : Z) (e : exn)
| LogRetrying (delay : Z).

(** What the bot does to the outside world. *)
Inductive event : Type :=
| EvPrint (m : log)
| EvSleep (secs : Z)
| EvTime
| EvUrandom (n : Z)
| EvGetBalance (a : address)
| EvGetTransactionCount (a : address)
| EvGasPrice
| EvSignTransaction (tx : transaction) (key : privkey)
| EvSendRawTransaction (raw : bytes)
| EvWaitForReceipt (tx_hash : bytes) (timeout : Z)
| EvTorNewnym
| EvPost (a : address).

Definition trace := list event.

Inductive channel : Type :=
| ChSleep | ChTime | ChUrandom | ChBalance | ChNonce | ChGasPrice
| ChSign | ChSend | ChReceipt | ChTor | ChPost.

Definition on_channel (c : channel) (e : event) : bool :=
  match c, e with
  | ChSleep, EvSleep _ => true
  | ChTime, EvTime => true
  | ChUrandom, EvUrandom _ => true
  | ChBalance, EvGetBalance _ => true
  | ChNonce, EvGetTransactionCount _ => true
  | ChGasPrice, EvGasPrice => true
  | ChSign, EvSignTransaction _ _ => true
  | ChSend, EvSendRawTransaction _ => true
  | ChReceipt, EvWaitForReceipt _ _ => true
  | ChTor, EvTorNewnym => true
  | ChPost, EvPost _ => true
  | _, _ => false
  end.

(** Number of calls already made on a channel. *)
Fixpoint calls (c : channel) (tr : trace) : nat :=
  match tr with
  | [] => O
  | e :: tr' => if on_channel c e then S (calls c tr') else calls c tr'
  end.

Definition is_print (e : event) : bool :=
  match e with
  | EvPrint _ => true
  | _ => false
  end.

(** The trace without the console lines. *)
Definition io (tr : trace) : trace := filter (fun e => negb (is_print e)) tr.

(** The environment: the answer to the n-th call of each primitive, and the
    three pure library functions the class uses.  [from_key] and [from_wei]
    reject some arguments with a [ValueError] ([None]). *)
Record env : Type := mkEnv {
  env_sleep : nat -> bool;
  env_time : nat -> Q;
  env_urandom : nat -> reply privkey;
  env_get_balance : nat -> address -> reply Z;
  env_get_transaction_count : nat -> address -> reply Z;
  env_gas_price : nat -> reply Z;
  env_sign_transaction : nat -> transaction -> privkey -> reply bytes;
  env_send_raw_transaction : nat -> bytes -> reply bytes;
  env_wait_for_receipt : nat -> bytes -> reply receipt;
  env_tor_newnym : nat -> reply unit;
  env_post : nat -> address -> reply (Z * bytes);
  from_key : privkey -> option address;
  from_wei : Z -> option Q;
  to_float : Q -> Q
}.

(** ** The monad of methods *)

Inductive result (A : Type) : Type :=
| Ret (a : A)
| Raise (e : exn)
| OutOfFuel.
Arguments Ret {A} a.
Arguments Raise {A} e.
Arguments OutOfFuel {A}.

Definition M (S A : Type) : Type := S -> result A * S.

Definition ret {S A : Type} (a : A) : M S A := fun s => (Ret a, s).

Definition bind {S A B : Type} (m : M S A) (k : A -> M S B) : M S B :=
  fun s =>
    match m s with
    | (Ret a, s') => k a s'
    | (Raise e, s') => (Raise e, s')
    | (OutOfFuel, s') => (OutOfFuel, s')
    end.

Definition raise {S A : Type} (e : exn) : M S A := fun s => (Raise e, s).

(** [try: m  except Exception as e: h e] *)
Definition try_except_Exception {S A : Type} (m : M S A) (h : exn -> M S A)
  : M S A :=
  fun s =>
    match m s with
    | (Raise e, s') => if is_Exception e then h e s' else (Raise e, s')
    | other => other
    end.

Declare Scope bot_scope.
Delimit Scope bot_scope with bot.
Notation "x <- c1 ;; c2" := (bind c1 (fun x => c2))
  (at level 100, c1 at next level, right associativity) : bot_scope.
Notation "c1 ;; c2" := (bind c1 (fun _ => c2))
  (at level 100, right associativity) : bot_scope.
Open Scope bot_scope.

(** Comparisons of floats. *)
Definition Qgtb (a b : Q) : bool :=
  match (a ?= b)%Q with
  | Gt => true
  | _ => false
  end.

Definition Qleb (a b : Q) : bool := negb (Qgtb a b).

Definition Qltb (a b : Q) : bool := Qgtb b a.

(** [needle in haystack] on byte strings. *)
Fixpoint contains (needle hay : string) : bool :=
  if prefix needle hay then true
  else match hay with
       | EmptyString => false
       | String _ rest => contains needle rest
       end.

(** [k[2:] if k.startswith('0x') else k] (line 260) *)
Definition strip_0x (k : privkey) : privkey :=
  if prefix "0x" k then substring 2 (String.length k - 2) k else k.

(** The outcome taxonomy.  The class has no such type: the tags name the
    branches of the [if]/[elif] chain of lines 267-333. *)
Inductive FaucetOutcome : Type :=
| Success
| RateLimited
| MaxRetriesExceeded
| TransactionReplaced
| ReplacementUnderpriced
| AccessRestricted
| TemporarilyForbidden
| Timeout
| ConnectionReset
| UnknownFailure.

(** The conditions of lines 278-329, in their order, each with the tag of
    the branch it guards. *)
Definition classify (response_content : bytes) : FaucetOutcome :=
  if contains "MAX_RETRIES_EXCEEDED" response_content then MaxRetriesExceeded
  else if contains "TRANSACTION_REPLACED" response_content then TransactionReplaced
  else if contains "REPLACEMENT_UNDERPRICED" response_content then ReplacementUnderpriced
  else if contains "RATE_LIMIT" response_content then RateLimited
  else if contains "Temporarily forbidden due to suspicious requests"
            response_content then TemporarilyForbidden
  else if contains "ACCESS_RESTRICTED" response_content then AccessRestricted
  else if contains "TIMEOUT" response_content then Timeout
  else if contains "CONNECTION_RESET" response_content then ConnectionReset
  else UnknownFailure.

(** Line 267 and the chain together. *)
Definition outcome_of (success : bool) (response_content : bytes)
  : FaucetOutcome :=
  if success then Success else classify response_content.

(** The local variables of [run_bot] that live across statements of the
    loop.  [temp_address] and [temp_private_key] are always assigned
    together (lines 253-254) and are kept as one optional account; [None] is
    their initial value.  The last three are unbound in Python until first
    assigned and never read before that. *)
Record locals : Type := mkLocals {
  l_cycle : Z;
  l_temp_account : option account;
  l_reuse : bool;
  l_initial_balance : Q;
  l_success : bool;
  l_response_content : bytes
}.

Definition set_cycle (v : Z) (l : locals) : locals :=
  mkLocals v (l_temp_account l) (l_reuse l) (l_initial_balance l)
    (l_success l) (l_response_content l).

Definition set_temp_account (v : option account) (l : locals) : locals :=
  mkLocals (l_cycle l) v (l_reuse l) (l_initial_balance l)
    (l_success l) (l_response_content l).

Definition set_reuse (v : bool) (l : locals) : locals :=
  mkLocals (l_cycle l) (l_temp_account l) v (l_initial_balance l)
    (l_success l) (l_response_content l).

Definition set_initial_balance (v : Q) (l : locals) : locals :=
  mkLocals (l_cycle l) (l_temp_account l) (l_reuse l) v
    (l_success l) (l_response_content l).

Definition set_response (r : bool * bytes) (l : locals) : locals :=
  mkLocals (l_cycle l) (l_temp_account l) (l_reuse l) (l_initial_balance l)
    (fst r) (snd r).

(** [cycle += 1] *)
Definition incr_cycle (l : locals) : locals := set_cycle (l_cycle l + 1) l.

Definition temp_address (l : locals) : option address :=
  option_map acct_address (l_temp_account l).

Definition bot_state : Type := locals * trace.

(** Running a method from inside [run_bot]: the locals are out of its
    reach. *)
Definition lift {A : Type} (m : M trace A) : M bot_state A :=
  fun s => let (r, tr') := m (snd s) in (r, (fst s, tr')).

Definition get_locals : M bot_state locals := fun s => (Ret (fst s), s).

Definition modify (f : locals -> locals) : M bot_state unit :=
  fun s => (Ret tt, (f (fst s), snd s)).

(** How one pass through a [while True] body ends. *)
Inductive ctl : Type := Break | Continue.

Section Model.

Variable E : env.

(** How many times an unbounded [while] loop may go round before the model
    gives up on it with [OutOfFuel]. *)
Variable fuel : nat.

(** *** Primitives *)

Definition emit (e : event) : M trace unit := fun tr => (Ret tt, e :: tr).

Definition print (m : log) : M trace unit := emit (EvPrint m).

Definition answer {A : Type} (r : reply A) : result A :=
  match r with
  | Val a => Ret a
  | Exc e => Raise e
  end.

(** [time.sleep(secs)]: returns, or is cut short by the operator. *)
Definition sleep (secs : Z) : M trace unit :=
  fun tr =>
    (if env_sleep E (calls ChSleep tr) then Raise KeyboardInterrupt else Ret tt,
     EvSleep secs :: tr).

(** [time.time()] *)
Definition time_time : M trace Q :=
  fun tr => (Ret (env_time E (calls ChTime tr)), EvTime :: tr).

(** [os.urandom(32).hex()] *)
Definition urandom_hex : M trace privkey :=
  fun tr => (answer (env_urandom E (calls ChUrandom tr)), EvUrandom 32 :: tr).

(** [self.w3.eth.get_balance(a)] *)
Definition eth_get_balance (a : address) : M trace Z :=
  fun tr =>
    (answer (env_get_balance E (calls ChBalance tr) a), EvGetBalance a :: tr).

(** [self.w3.eth.get_transaction_count(a)] *)
Definition eth_get_transaction_count (a : address) : M trace Z :=
  fun tr =>
    (answer (env_get_transaction_count E (calls ChNonce tr) a),
     EvGetTransactionCount a :: tr).

(** [self.w3.eth.gas_price] *)
Definition eth_gas_price : M trace Z :=
  fun tr => (answer (env_gas_price E (calls ChGasPrice tr)), EvGasPrice :: tr).

(** [self.w3.eth.account.sign_transaction(tx, key).rawTransaction] *)
Definition sign_transaction (tx : transaction) (key : privkey) : M trace bytes :=
  fun tr =>
    (answer (env_sign_transaction E (calls ChSign tr) tx key),
     EvSignTransaction tx key :: tr).

(** [self.w3.eth.send_raw_transaction(raw)] *)
Definition send_raw_transaction (raw : bytes) : M trace bytes :=
  fun tr =>
    (answer (env_send_raw_transaction E (calls ChSend tr) raw),
     EvSendRawTransaction raw :: tr).

(** [self.w3.eth.wait_for_transaction_receipt(tx_hash, timeout=t)] *)
Definition wait_for_transaction_receipt (tx_hash : bytes) (t : Z)
  : M trace receipt :=
  fun tr =>
    (answer (env_wait_for_receipt E (calls ChReceipt tr) tx_hash),
     EvWaitForReceipt tx_hash t :: tr).

(** The [with Controller.from_port(port=9051)] block of lines 56-58. *)
Definition tor_newnym : M trace unit :=
  fun tr => (answer (env_tor_newnym E (calls ChTor tr)), EvTorNewnym :: tr).

(** [requests.post(self.faucet_url, ...)]: status code and content. *)
Definition requests_post (a : address) : M trace (Z * bytes) :=
  fun tr => (answer (env_post E (calls ChPost tr) a), EvPost a :: tr).

(** [self.w3.from_wei(w, 'ether')]: pure, may raise. *)
Definition w3_from_wei (w : Z) : M trace Q :=
  fun tr =>
    (match from_wei E w with
     | Some d => Ret d
     | None => Raise (OtherException "ValueError")
     end, tr).

(** [Account.from_key(k).address]: pure, may raise. *)
Definition account_from_key (k : privkey) : M trace address :=
  fun tr =>
    (match from_key E k with
     | Some a => Ret a
     | None => Raise (OtherException "ValueError")
     end, tr).

(** [self.request_delay] *)
Definition request_delay : Z := 1.

(** *** Methods *)

(** Lines 32-39. *)
Definition generate_random_account : M trace account :=
  private_key <- urandom_hex ;;
  a <- account_from_key private_key ;;
  ret (mkAccount private_key a).

(** Lines 41-49. *)
Definition get_balance (a : address) : M trace Q :=
  try_except_Exception
    (balance_wei <- eth_get_balance a ;;
     balance_eth <- w3_from_wei balance_wei ;;
     ret (to_float E balance_eth))
    (fun e =>
       print (LogBalanceError a e) ;;
       ret 0%Q).

(** Lines 159-203, read as the body of the method of line 157.  In the file
    the [try] of line 159 and its [except] of line 201 stand one level to
    the left of the docstring, at the level of the class, while the
    statements between them stand at the level of a method body.  This
    definition is what those lines do when they are run as the body of
    [transfer_funds], the only reading under which their [return]s are
    legal and the one every caller relies on; [transfer_funds_as_written]
    below is the method taken to the letter. *)
Definition transfer_funds (from_private_key : privkey)
  (from_address to_address : address) (amount_eth : Q) : M trace bool :=
  try_except_Exception
    (nonce <- eth_get_transaction_count from_address ;;
     gas_price <- eth_gas_price ;;
     let gas_limit := 21000 in
     let gas_cost_wei := gas_limit * gas_price in
     gas_cost_eth <- w3_from_wei gas_cost_wei ;;
     balance_wei <- eth_get_balance from_address ;;
     balance_eth <- w3_from_wei balance_wei ;;
     let send_amount_wei := balance_wei - gas_cost_wei in
     send_amount_eth <- w3_from_wei send_amount_wei ;;
     if send_amount_wei <=? 0 then
       print (LogInsufficient balance_eth gas_cost_eth) ;;
       ret false
     else
       let transaction :=
         {| tx_nonce := nonce;
            tx_to := to_address;
            tx_value := send_amount_wei;
            tx_gas := gas_limit;
            tx_gasPrice := gas_price |} in
       raw <- sign_transaction transaction from_private_key ;;
       tx_hash <- send_raw_transaction raw ;;
       print (LogTransferInitiated tx_hash) ;;
       print (LogSent send_amount_eth to_address) ;;
       print LogWaitingConfirmation ;;
       tx_receipt <- wait_for_transaction_receipt tx_hash 120 ;;
       if rc_status tx_receipt =? 1 then
         print (LogConfirmed (rc_blockNumber tx_receipt)) ;;
         ret true
       else
         print LogTransferFailed ;;
         ret false)
    (fun e =>
       print (LogTransferError e) ;;
       ret false).

(** Lines 157-158 to the letter: with the [try] statement at the level of
    the class the method is its docstring alone, so a call does nothing and
    returns [None].  (Python refuses the file in this form, since the
    [return]s of lines 176-203 then stand outside any function.) *)
Definition transfer_funds_as_written (from_private_key : privkey)
  (from_address to_address : address) (amount_eth : Q)
  : M trace (option bool) :=
  ret None.

(** [range(n)] *)
Definition range (n : Z) : list Z := map Z.of_nat (seq 0 (Z.to_nat n)).

(** Lines 51-68; [attempts] is what is left of [range(max_attempts)].  The
    loop body either returns from the method ([Some]) or falls through to
    the next attempt ([None]). *)
Fixpoint change_tor_identity_loop (max_attempts : Z) (attempts : list Z)
  : M trace bool :=
  match attempts with
  | [] =>
      print LogTorGaveUp ;;
      ret false
  | attempt :: rest =>
      r <- try_except_Exception
             (tor_newnym ;;
              print (LogTorChanged (attempt + 1)) ;;
              sleep 3 ;;
              ret (Some true))
             (fun e =>
                print (LogTorError (attempt + 1) e) ;;
                (if attempt <? max_attempts - 1 then
                   print (LogTorRetrying request_delay) ;;
                   sleep request_delay
                 else ret tt) ;;
                ret None) ;;
      match r with
      | Some b => ret b
      | None => change_tor_identity_loop max_attempts rest
      end
  end.

Definition change_tor_identity : M trace bool :=
  let max_attempts := 3 in
  change_tor_identity_loop max_attempts (range max_attempts).

(** Lines 73-109: the body of the [try] statement of
    [request_faucet_funds]. *)
Definition request_faucet_funds_try (a : address) : M trace (bool * bytes) :=
  print (LogPreparingIp a) ;;
  changed <- change_tor_identity ;;
  (if negb changed then print LogTorProceeding else ret tt) ;;
  print (LogRequesting a) ;;
  response <- requests_post a ;;
  let '(status_code, content) := response in
  print (LogResponse status_code) ;;
  if status_code =? 200 then
    print LogFaucetOk ;;
    ret (true, content)
  else
    print (LogFaucetFailed status_code) ;;
    print (LogRawResponse content) ;;
    ret (false, content).

(** Lines 70-126: the [try] statement with its three [except] clauses. *)
Definition request_faucet_funds (a : address) : M trace (bool * bytes) :=
  fun tr =>
    match request_faucet_funds_try a tr with
    | (Raise ReadTimeout, tr') =>
        (print LogReadTimeout ;;
         ret (false, "TIMEOUT")) tr'
    | (Raise (ConnectionError msg), tr') =>
        (if contains "Connection reset by peer" msg then
           print LogConnectionReset ;;
           ret (false, "CONNECTION_RESET")
         else if contains "Max retries exceeded with url" msg then
           print LogMaxRetries ;;
           ret (false, "MAX_RETRIES_EXCEEDED")
         else
           print (LogFaucetError (ConnectionError msg)) ;;
           ret (false, EmptyString)) tr'
    | (Raise (OtherException msg), tr') =>
        (print (LogFaucetError (OtherException msg)) ;;
         ret (false, EmptyString)) tr'
    | other => other
    end.

(** The [while True] loop of lines 142-154, which lines 216-228 repeat word
    for word inside [wait_for_funds_and_transfer]. *)
Fixpoint transfer_retry_loop (n : nat) (temp_private_key : privkey)
  (temp_address recipient_address : address)
  (initial_balance current_balance : Q) (retry_count : Z) : M trace bool :=
  match n with
  | O => fun tr => (OutOfFuel, tr)
  | S n' =>
      let retry_count := retry_count + 1 in
      print (LogAttemptTransfer retry_count) ;;
      ok <- transfer_funds temp_private_key temp_address recipient_address
              current_balance ;;
      if ok then
        print LogTransferred ;;
        ret true
      else
        print (LogTransferRetry request_delay) ;;
        sleep request_delay ;;
        b <- get_balance temp_address ;;
        if Qleb b initial_balance then
          print LogFundsGone ;;
          ret false
        else
          transfer_retry_loop n' temp_private_key temp_address
            recipient_address initial_balance current_balance retry_count
  end.

(** The [for] loop of lines 132-139; returns [funds_received] and
    [current_balance]. *)
Fixpoint poll_balance (temp_address : address) (initial_balance : Q)
  (check_attempts : Z) (attempts : list Z) (current_balance : Q)
  : M trace (bool * Q) :=
  match attempts with
  | [] => ret (false, current_balance)
  | i :: rest =>
      current_balance <- get_balance temp_address ;;
      if Qgtb current_balance initial_balance then
        print (LogFundsReceivedOnCheck (i + 1) current_balance) ;;
        ret (true, current_balance)
      else
        print (LogCheckingAttempt (i + 1) check_attempts current_balance) ;;
        sleep 1 ;;
        poll_balance temp_address initial_balance check_attempts rest
          current_balance
  end.

(** Lines 128-155. *)
Definition check_balance_and_transfer (temp_private_key : privkey)
  (temp_address recipient_address : address) (initial_balance : Q)
  (check_attempts : Z) : M trace bool :=
  polled <- poll_balance temp_address initial_balance check_attempts
              (range check_attempts) 0%Q ;;
  let '(funds_received, current_balance) := polled in
  if funds_received then
    transfer_retry_loop fuel temp_private_key temp_address recipient_address
      initial_balance current_balance 0
  else ret false.

(** The outer [while] loop of lines 210-231. *)
Fixpoint wait_loop (n : nat) (temp_private_key : privkey)
  (temp_address recipient_address : address)
  (initial_balance timeout start_time : Q) : M trace bool :=
  match n with
  | O => fun tr => (OutOfFuel, tr)
  | S n' =>
      now <- time_time ;;
      if Qltb (now - start_time) timeout then
        current_balance <- get_balance temp_address ;;
        if Qgtb current_balance initial_balance then
          print (LogFundsReceived current_balance) ;;
          transfer_retry_loop fuel temp_private_key temp_address
            recipient_address initial_balance current_balance 0
        else
          print (LogChecking current_balance) ;;
          sleep 1 ;;
          wait_loop n' temp_private_key temp_address recipient_address
            initial_balance timeout start_time
      else
        print LogTimeout ;;
        ret false
  end.

(** Lines 205-234. *)
Definition wait_for_funds_and_transfer (temp_private_key : privkey)
  (temp_address recipient_address : address) (initial_balance timeout : Q)
  : M trace bool :=
  print (LogWaiting temp_address) ;;
  start_time <- time_time ;;
  wait_loop fuel temp_private_key temp_address recipient_address
    initial_balance timeout start_time.

(** *** The orchestrator *)

(** Lines 251-260: pick the account of this cycle. *)
Definition select_account : M bot_state account :=
  l <- get_locals ;;
  (if negb (l_reuse l) then
     account <- lift generate_random_account ;;
     modify (set_temp_account (Some account))
   else
     modify (set_reuse false) ;;
     lift (print (LogReusing (temp_address l)))) ;;
  l <- get_locals ;;
  lift (print (LogGenerated (temp_address l))) ;;
  match l_temp_account l with
  | None => raise (OtherException "AttributeError")
  | Some acc =>
      lift (print (LogPrivateKey (strip_0x (private_key acc)))) ;;
      ret acc
  end.

(** Lines 268-276. *)
Definition success_branch (acc : account) (recipient_address : address)
  : M bot_state ctl :=
  l <- get_locals ;;
  ok <- lift (wait_for_funds_and_transfer (private_key acc) (acct_address acc)
                recipient_address (l_initial_balance l) 300%Q) ;;
  if ok then
    lift (print (LogCycleCompleted (l_cycle l))) ;;
    modify incr_cycle ;;
    lift (sleep request_delay) ;;
    ret Break
  else
    lift (print (LogCycleTransferFailed (l_cycle l))) ;;
    lift (sleep 2) ;;
    ret Continue.

(** Lines 279-283, 285-289, 291-295 and 312-316, which differ in the
    message only. *)
Definition advance_with_reuse (m : log) : M bot_state ctl :=
  lift (print m) ;;
  modify (set_reuse true) ;;
  modify incr_cycle ;;
  lift (sleep request_delay) ;;
  ret Break.

(** Lines 297-310. *)
Definition rate_limit_branch (acc : account) (recipient_address : address)
  : M bot_state ctl :=
  lift (print LogRateLimitDetected) ;;
  l <- get_locals ;;
  ok <- lift (check_balance_and_transfer (private_key acc) (acct_address acc)
                recipient_address (l_initial_balance l) 10) ;;
  (if ok then
     lift (print LogRecheckSecond) ;;
     b <- lift (get_balance (acct_address acc)) ;;
     modify (set_initial_balance b) ;;
     ok2 <- lift (check_balance_and_transfer (private_key acc)
                    (acct_address acc) recipient_address b 10) ;;
     if ok2 then lift (print LogSecondOk)
     else lift (print LogNoAdditional)
   else
     lift (print LogNoFundsAfterChecks)) ;;
  modify incr_cycle ;;
  lift (sleep request_delay) ;;
  ret Break.

(** Lines 318-320, 322-324 and 326-328, which differ in the message only. *)
Definition retry_same_address (m : log) : M bot_state ctl :=
  lift (print m) ;;
  lift (sleep request_delay) ;;
  ret Continue.

(** Lines 330-333. *)
Definition unknown_failure_branch : M bot_state ctl :=
  l <- get_locals ;;
  lift (print (LogCycleFailed (l_cycle l))) ;;
  modify incr_cycle ;;
  lift (sleep request_delay) ;;
  ret Break.

(** Lines 278-333: the chain taken when [success] is false. *)
Definition failure_branch (acc : account) (recipient_address : address)
  (response_content : bytes) : M bot_state ctl :=
  if contains "MAX_RETRIES_EXCEEDED" response_content then
    advance_with_reuse LogMaxRetriesReuse
  else if contains "TRANSACTION_REPLACED" response_content then
    advance_with_reuse LogTransactionReplacedReuse
  else if contains "REPLACEMENT_UNDERPRICED" response_content then
    advance_with_reuse LogReplacementUnderpricedReuse
  else if contains "RATE_LIMIT" response_content then
    rate_limit_branch acc recipient_address
  else if contains "Temporarily forbidden due to suspicious requests"
            response_content then
    advance_with_reuse LogForbiddenReuse
  else if contains "ACCESS_RESTRICTED" response_content then
    retry_same_address (LogAccessRestricted request_delay)
  else if contains "TIMEOUT" response_content then
    retry_same_address (LogTimeoutRetry request_delay)
  else if contains "CONNECTION_RESET" response_content then
    retry_same_address (LogConnectionResetRetry request_delay)
  else
    unknown_failure_branch.

(** Lines 266-333: one pass through the inner [while True]. *)
Definition faucet_attempt (acc : account) (recipient_address : address)
  : M bot_state ctl :=
  r <- lift (request_faucet_funds (acct_address acc)) ;;
  modify (set_response r) ;;
  let '(success, response_content) := r in
  if success then success_branch acc recipient_address
  else failure_branch acc recipient_address response_content.

(** The inner [while True] of lines 265-333. *)
Fixpoint faucet_loop (n : nat) (acc : account) (recipient_address : address)
  : M bot_state unit :=
  match n with
  | O => fun s => (OutOfFuel, s)
  | S n' =>
      c <- faucet_attempt acc recipient_address ;;
      match c with
      | Break => ret tt
      | Continue => faucet_loop n' acc recipient_address
      end
  end.

(** Lines 249-335: the body of the [try] statement. *)
Definition cycle_body (recipient_address : address) : M bot_state unit :=
  l <- get_locals ;;
  lift (print (LogCycle (l_cycle l))) ;;
  acc <- select_account ;;
  b <- lift (get_balance (acct_address acc)) ;;
  modify (set_initial_balance b) ;;
  lift (print (LogInitialBalance b)) ;;
  faucet_loop fuel acc recipient_address ;;
  lift (print (LogNextCycle request_delay)).

(** Lines 248-343: one pass through the outer [while True], with the two
    [except] clauses. *)
Definition run_bot_iteration (recipient_address : address) : M bot_state ctl :=
  fun s =>
    match cycle_body recipient_address s with
    | (Ret _, s') => (Ret Continue, s')
    | (Raise KeyboardInterrupt, s') =>
        (lift (print LogStopped) ;;
         ret Break) s'
    | (Raise e, s') =>
        (l <- get_locals ;;
         lift (print (LogUnexpected (l_cycle l) e)) ;;
         lift (print (LogRetrying request_delay)) ;;
         lift (sleep request_delay) ;;
         ret Continue) s'
    | (OutOfFuel, s') => (OutOfFuel, s')
    end.

(** The outer [while True] of lines 247-343. *)
Fixpoint run_bot_loop (n : nat) (recipient_address : address)
  : M bot_state unit :=
  match n with
  | O => fun s => (OutOfFuel, s)
  | S n' =>
      c <- run_bot_iteration recipient_address ;;
      match c with
      | Break => ret tt
      | Continue => run_bot_loop n' recipient_address
      end
  end.

(** The locals as lines 242-245 leave them. *)
Definition initial_locals : locals :=
  {| l_cycle := 1;
     l_temp_account := None;
     l_reuse := false;
     l_initial_balance := 0%Q;
     l_success := false;
     l_response_content := EmptyString |}.

(** Lines 236-343. *)
Definition run_bot (recipient_address : address) : M trace unit :=
  fun tr =>
    let (r, s) :=
      run_bot_loop fuel recipient_address
        (initial_locals,
         EvPrint LogSeparator :: EvPrint (LogRecipient recipient_address)
           :: EvPrint LogStart :: tr) in
    (r, snd s).

End Model.

(** ** Helpers for statements *)

(** What [get_balance] returns when its RPC read is the [n]-th of the run. *)
Definition balance_reading (E : env) (a : address) (n : nat) : result Q :=
  match env_get_balance E n a with
  | Val w =>
      match from_wei E w with
      | Some d => Ret (to_float E d)
      | None => Ret 0%Q
      end
  | Exc e => if is_Exception e then Ret 0%Q else Raise e
  end.

(** The transactions handed to the signer, newest first. *)
Definition signed (tr : trace) : trace := filter (on_channel ChSign) tr.

(** Everything a sweep does past its three reads. *)
Definition is_transfer_event (e : event) : bool :=
  on_channel ChSign e || on_channel ChSend e || on_channel ChReceipt e.

Definition transfer_events (tr : trace) : trace := filter is_transfer_event tr.

(** [n] polls as the trace shows them, newest first: a balance read, then a
    sleep of one second. *)
Fixpoint polls (a : address) (n : nat) : trace :=
  match n with
  | O => []
  | S n' => EvSleep 1 :: EvGetBalance a :: polls a n'
  end.

(** The markers in the order in which the chain of lines 278-329 looks for
    them, each with the outcome it stands for. *)
Definition marker_table : list (string * FaucetOutcome) :=
  [("MAX_RETRIES_EXCEEDED", MaxRetriesExceeded);
   ("TRANSACTION_REPLACED", TransactionReplaced);
   ("REPLACEMENT_UNDERPRICED", ReplacementUnderpriced);
   ("RATE_LIMIT", RateLimited);
   ("Temporarily forbidden due to suspicious requests", TemporarilyForbidden);
   ("ACCESS_RESTRICTED", AccessRestricted);
   ("TIMEOUT", Timeout);
   ("CONNECTION_RESET", ConnectionReset)].

(** Selection by precedence: the outcome of the first marker of the table
    that the body contains. *)
Definition first_marker (body : bytes) : FaucetOutcome :=
  match find (fun m => contains (fst m) body) marker_table with
  | Some (_, o) => o
  | None => UnknownFailure
  end.

(** The branch of the orchestrator that belongs to an outcome. *)
Definition branch_for (E : env) (fuel : nat) (acc : account)
  (recipient_address : address) (o : FaucetOutcome) : M bot_state ctl :=
  match o with
  | Success => success_branch E fuel acc recipient_address
  | RateLimited => rate_limit_branch E fuel acc recipient_address
  | MaxRetriesExceeded => advance_with_reuse E LogMaxRetriesReuse
  | TransactionReplaced => advance_with_reuse E LogTransactionReplacedReuse
  | ReplacementUnderpriced =>
      advance_with_reuse E LogReplacementUnderpricedReuse
  | TemporarilyForbidden => advance_with_reuse E LogForbiddenReuse
  | AccessRestricted =>
      retry_same_address E (LogAccessRestricted request_delay)
  | Timeout => retry_same_address E (LogTimeoutRetry request_delay)
  | ConnectionReset =>
      retry_same_address E (LogConnectionResetRetry request_delay)
  | UnknownFailure => unknown_failure_branch E
  end.

(** The outcomes after which the next cycle keeps the account, and those
    after which it draws a new one. *)
Definition reuse_outcome (o : FaucetOutcome) : bool :=
  match o with
  | MaxRetriesExceeded | TransactionReplaced | ReplacementUnderpriced
  | TemporarilyForbidden => true
  | _ => false
  end.

Definition fresh_outcome (o : FaucetOutcome) : bool :=
  match o with
  | Success | UnknownFailure | RateLimited => true
  | _ => false
  end.

(** The outcome with which the cycle that left these locals ended: line 266
    assigns [success] and [response_content] at every attempt. *)
Definition last_outcome (l : locals) : FaucetOutcome :=
  outcome_of (l_success l) (l_response_content l).

(** The state in which the cycle after [s] reaches line 251. *)
Definition next_cycle_start (s : bot_state) : bot_state :=
  (fst s, EvPrint (LogCycle (l_cycle (fst s))) :: snd s).

(** The state of the outer loop after [k] rounds each of which went on to
    the next ([continue], or the end of the loop body); [None] when one of
    them did not. *)
Fixpoint rounds (E : env) (fuel : nat) (recipient_address : address)
  (k : nat) (s : bot_state) : option bot_state :=
  match k with
  | O => Some s
  | S k' =>
      match run_bot_iteration E fuel recipient_address s with
      | (Ret Continue, s1) => rounds E fuel recipient_address k' s1
      | _ => None
      end
  end.


(** The rate-limit branch as the specification words it, for comparison
    with [rate_limit_branch]: two passes of the bounded poller in sequence,
    whatever the first returns. *)
Definition rate_limit_two_passes (E : env) (fuel : nat) (acc : account)
  (recipient_address : address) : M bot_state ctl :=
  lift (print LogRateLimitDetected) ;;
  l <- get_locals ;;
  _ <- lift (check_balance_and_transfer E fuel (private_key acc)
               (acct_address acc) recipient_address (l_initial_balance l) 10) ;;
  b <- lift (get_balance E (acct_address acc)) ;;
  modify (set_initial_balance b) ;;
  _ <- lift (check_balance_and_transfer E fuel (private_key acc)
               (acct_address acc) recipient_address b 10) ;;
  modify incr_cycle ;;
  lift (sleep E request_delay) ;;
  ret Break.

(** An environment in which the operator never interrupts: no sleep is cut
    short and no call answers with [KeyboardInterrupt]. *)
Record quiet (E : env) : Prop := mkQuiet {
  q_sleep : forall n, env_sleep E n = false;
  q_urandom : forall n, env_urandom E n <> Exc KeyboardInterrupt;
  q_get_balance : forall n a, env_get_balance E n a <> Exc KeyboardInterrupt;
  q_get_transaction_count :
    forall n a, env_get_transaction_count E n a <> Exc KeyboardInterrupt;
  q_gas_price : forall n, env_gas_price E n <> Exc KeyboardInterrupt;
  q_sign_transaction :
    forall n tx k, env_sign_transaction E n tx k <> Exc KeyboardInterrupt;
  q_send_raw_transaction :
    forall n raw, env_send_raw_transaction E n raw <> Exc KeyboardInterrupt;
  q_wait_for_receipt :
    forall n h, env_wait_for_receipt E n h <> Exc KeyboardInterrupt;
  q_tor_newnym : forall n, env_tor_newnym E n <> Exc KeyboardInterrupt;
  q_post : forall n a, env_post E n a <> Exc KeyboardInterrupt
}.

(** What may leave a method that catches [Exception]: the operator
    interrupt, and only in an environment that delivers it. *)
Definition interrupt (E : env) (e : exn) : Prop :=
  e = KeyboardInterrupt /\ ~ quiet E.

(** What may leave a call that catches nothing. *)
Definition failure (E : env) (e : exn) : Prop :=
  is_Exception e = true \/ interrupt E e.

(** A transaction handed to the signer pays [recipient], with the gas limit
    of a plain transfer and a positive amount; any other event passes. *)
Definition pays (recipient : address) (ev : event) : Prop :=
  match ev with
  | EvSignTransaction tx _ =>
      tx_to tx = recipient /\ tx_gas tx = 21000 /\ 0 < tx_value tx
  | _ => True
  end.

(** A run contract: whatever [m] adds to the trace (seen through [view])
    satisfies [Q], and whatever it raises satisfies [P]. *)
Definition sound {S A : Type} (view : S -> trace) (Q : event -> Prop)
  (P : exn -> Prop) (m : M S A) : Prop :=
  forall s r s',
    m s = (r, s') ->
    (exists new, view s' = (new ++ view s)%list /\ Forall Q new) /\
    (forall e, r = Raise e -> P e).

(** The trace of a method is its state. *)
Definition whole (tr : trace) : trace := tr.

(** ** Sample environments *)

(** [eth_utils.currency.from_wei(w, 'ether')] as the library has it. *)
Definition from_wei_ether (w : Z) : option Q :=
  if w =? 0 then Some 0%Q
  else if (w <? 0) || (2 ^ 256 - 1 <? w) then None
  else Some (w # 1000000000000000000)%Q.

(** A key per draw: "a", "b", "c", ... *)
Definition sample_key (n : nat) : privkey :=
  String (ascii_of_nat (97 + n)) EmptyString.

(** A calm world: nobody interrupts, the clock advances 100 seconds per
    look, the account is empty, gas costs 1 gwei, the node accepts and
    confirms what it is sent, and the faucet answers 200. *)
Definition calm : env :=
  {| env_sleep := fun _ => false;
     env_time := fun n => inject_Z (100 * Z.of_nat n);
     env_urandom := fun n => Val (sample_key n);
     env_get_balance := fun _ _ => Val 0;
     env_get_transaction_count := fun _ _ => Val 0;
     env_gas_price := fun _ => Val 1000000000;
     env_sign_transaction := fun _ _ _ => Val "raw";
     env_send_raw_transaction := fun _ _ => Val "0xhash";
     env_wait_for_receipt := fun _ _ => Val (mkReceipt 1 7);
     env_tor_newnym := fun _ => Val tt;
     env_post := fun _ _ => Val (200, "ok");
     from_key := fun k => Some ("0x" ++ k);
     from_wei := from_wei_ether;
     to_float := fun q => q |}.

Definition with_balance (f : nat -> address -> reply Z) (E : env) : env :=
  mkEnv (env_sleep E) (env_time E) (env_urandom E) f
    (env_get_transaction_count E) (env_gas_price E) (env_sign_transaction E)
    (env_send_raw_transaction E) (env_wait_for_receipt E) (env_tor_newnym E)
    (env_post E) (from_key E) (from_wei E) (to_float E).

Definition with_post (f : nat -> address -> reply (Z * bytes)) (E : env)
  : env :=
  mkEnv (env_sleep E) (env_time E) (env_urandom E) (env_get_balance E)
    (env_get_transaction_count E) (env_gas_price E) (env_sign_transaction E)
    (env_send_raw_transaction E) (env_wait_for_receipt E) (env_tor_newnym E)
    f (from_key E) (from_wei E) (to_float E).

Definition with_urandom (f : nat -> reply privkey) (E : env) : env :=
  mkEnv (env_sleep E) (env_time E) f (env_get_balance E)
    (env_get_transaction_count E) (env_gas_price E) (env_sign_transaction E)
    (env_send_raw_transaction E) (env_wait_for_receipt E) (env_tor_newnym E)
    (env_post E) (from_key E) (from_wei E) (to_float E).

Definition with_receipt (f : nat -> bytes -> reply receipt) (E : env) : env :=
  mkEnv (env_sleep E) (env_time E) (env_urandom E) (env_get_balance E)
    (env_get_transaction_count E) (env_gas_price E) (env_sign_transaction E)
    (env_send_raw_transaction E) f (env_tor_newnym E)
    (env_post E) (from_key E) (from_wei E) (to_float E).

(** One ether, in wei. *)
Definition one_ether : Z := 1000000000000000000.

Definition failing_node : env :=
  with_balance
    (fun n _ => if Nat.eqb n 0 then Exc (ConnectionError "node down")
                else Val one_ether) calm.

(** An account holding one ether. *)
Definition funded : env := with_balance (fun _ _ => Val one_ether) calm.

(** An account holding less than the fee of 21000 gwei. *)
Definition dust : env := with_balance (fun _ _ => Val 20000000000000) calm.

(** Funds of 1.5 ether show up at the third balance read. *)
Definition late_funds : env :=
  with_balance
    (fun n _ => if (n <? 2)%nat then Val 0 else Val 1500000000000000000) calm.

(** One ether is there at the first read and gone afterwards, and the node
    reports every transfer as reverted. *)
Definition reverting : env :=
  with_receipt (fun _ _ => Val (mkReceipt 0 7))
    (with_balance (fun n _ => if (n <? 1)%nat then Val one_ether else Val 0)
       calm).

(** The faucet cannot be reached: the request raises the connection error
    that [requests] raises once its retries are used up. *)
Definition unreachable_faucet : env :=
  with_post
    (fun _ _ =>
       Exc (ConnectionError
              "HTTPSConnectionPool(host='faucet.chainplatform.co', port=443): Max retries exceeded with url: /api/ethereum-sepolia/faucet"))
    calm.

(** The entropy source fails at the first draw. *)
Definition broken_entropy : env :=
  with_urandom
    (fun n => if (n <? 1)%nat then Exc (OtherException "OSError")
              else Val (sample_key n)) calm.

(** The faucet answers 429 with a rate-limit body; the account stays
    empty. *)
Definition rate_limited : env :=
  with_post (fun _ _ => Val (429, "error: RATE_LIMIT")) calm.

(** The locals in the middle of a first cycle on account "a". *)
Definition sample_locals : locals :=
  {| l_cycle := 1;
     l_temp_account := Some (mkAccount "a" "0xa");
     l_reuse := false;
     l_initial_balance := 0%Q;
     l_success := false;
     l_response_content := "error: RATE_LIMIT" |}.

Definition with_sleep (f : nat -> bool) (E : env) : env :=
  mkEnv f (env_time E) (env_urandom E) (env_get_balance E)
    (env_get_transaction_count E) (env_gas_price E) (env_sign_transaction E)
    (env_send_raw_transaction E) (env_wait_for_receipt E) (env_tor_newnym E)
    (env_post E) (from_key E) (from_wei E) (to_float E).

Definition with_tor (f : nat -> reply unit) (E : env) : env :=
  mkEnv (env_sleep E) (env_time E) (env_urandom E) (env_get_balance E)
    (env_get_transaction_count E) (env_gas_price E) (env_sign_transaction E)
    (env_send_raw_transaction E) (env_wait_for_receipt E) f
    (env_post E) (from_key E) (from_wei E) (to_float E).

Definition with_key_check (f : privkey -> option address) (E : env) : env :=
  mkEnv (env_sleep E) (env_time E) (env_urandom E) (env_get_balance E)
    (env_get_transaction_count E) (env_gas_price E) (env_sign_transaction E)
    (env_send_raw_transaction E) (env_wait_for_receipt E) (env_tor_newnym E)
    (env_post E) f (from_wei E) (to_float E).

(** The operator interrupts every sleep. *)
Definition impatient : env := with_sleep (fun _ => true) calm.

(** The faucet pays: the account is empty at the first balance read of the
    run and holds one ether from the second on. *)
Definition generous : env :=
  with_balance (fun n _ => if (n <? 1)%nat then Val 0 else Val one_ether)
    calm.

(** [k] failed identity changes as the trace shows them, newest first: a
    call to the control port, then the pause before the next attempt. *)
Fixpoint tor_retries (k : nat) : trace :=
  match k with
  | O => []
  | S k' => EvSleep 1 :: EvTorNewnym :: tor_retries k'
  end.

(** The Tor control port cannot be reached. *)
Definition tor_down : env :=
  with_tor (fun _ => Exc (OtherException "SocketError")) calm.

(** The Tor control port answers at the third attempt. *)
Definition tor_flaky : env :=
  with_tor (fun n => if (n <? 2)%nat then Exc (OtherException "SocketError")
                     else Val tt) calm.

(** The faucet request fails with an error of no particular class. *)
Definition broken_faucet : env :=
  with_post (fun _ _ => Exc (OtherException "SSLError")) calm.

(** The faucet request times out. *)
Definition slow_faucet : env :=
  with_post (fun _ _ => Exc ReadTimeout) calm.

(** One ether is there at the first read; every later read fails, and the
    node reports every transfer as reverted. *)
Definition flaky : env :=
  with_receipt (fun _ _ => Val (mkReceipt 0 7))
    (with_balance
       (fun n _ => if (n <? 1)%nat then Val one_ether
                   else Exc (ConnectionError "node down")) calm).

(** [n] rounds of the time-bounded poller as the trace shows them, newest
    first: a look at the clock, a balance read, a sleep of one second. *)
Fixpoint waits (a : address) (n : nat) : trace :=
  match n with
  | O => []
  | S n' => EvSleep 1 :: EvGetBalance a :: EvTime :: waits a n'
  end.

(** No key is accepted by the account library. *)
Definition picky : env := with_key_check (fun _ => None) calm.

(** The entropy source hands out the same key at every draw, and the faucet
    answers 500 with a body that holds no marker. *)
Definition repeating_entropy : env :=
  with_urandom (fun _ => Val "a")
    (with_post (fun _ _ => Val (500, "internal server error")) calm).

(** The locals at the end of a cycle that asked for reuse, with a baseline
    of five ether left over from it. *)
Definition reuse_locals : locals :=
  {| l_cycle := 2;
     l_temp_account := Some (mkAccount "a" "0xa");
     l_reuse := true;
     l_initial_balance := 5%Q;
     l_success := false;
     l_response_content := "MAX_RETRIES_EXCEEDED" |}.

(** ** Basic facts *)

(** Case analysis on a run: destruct, innermost first, whatever the run in
    [H] branches on. *)
Ltac run_cases H :=
  repeat (match type of H with
          | context [match ?x with _ => _ end] =>
              lazymatch x with
              | context [match _ with _ => _ end] => fail
              | _ => destruct x eqn:?
              end
          end;
          cbv beta iota in H; cbn [fst snd] in H;
          try discriminate H).

Lemma calls_app_prints (c : channel) (pr tr : trace) :
  forallb is_print pr = true -> calls c (pr ++ tr)%list = calls c tr.
Proof.
  induction pr as [|e pr IH]; simpl; intros H; [reflexivity|].
  apply andb_prop in H; destruct H as [He Hpr].
  destruct e; try discriminate He.
  destruct c; simpl; auto.
Qed.

Lemma io_app_prints (pr tr : trace) :
  forallb is_print pr = true -> io (pr ++ tr)%list = io tr.
Proof.
  induction pr as [|e pr IH]; simpl; intros H; [reflexivity|].
  apply andb_prop in H; destruct H as [He Hpr].
  unfold io in *; simpl. rewrite He; simpl. auto.
Qed.

(** [get_balance] makes one RPC read, perhaps prints, and returns what
    [balance_reading] says. *)
Lemma get_balance_spec (E : env) (a : address) (tr : trace) :
  exists pr,
    forallb is_print pr = true /\
    get_balance E a tr
    = (balance_reading E a (calls ChBalance tr),
       (pr ++ EvGetBalance a :: tr)%list).
Proof.
  unfold get_balance, balance_reading, try_except_Exception, bind,
    eth_get_balance, w3_from_wei, answer, ret, print, emit.
  destruct (env_get_balance E (calls ChBalance tr) a) as [w|e].
  - destruct (from_wei E w) as [d|].
    + exists []; split; reflexivity.
    + eexists [EvPrint _]; split; reflexivity.
  - destruct (is_Exception e) eqn:He.
    + exists [EvPrint (LogBalanceError a e)]; split; reflexivity.
    + exists []; split; reflexivity.
Qed.

(** ** get_balance (C8) *)

(** C8.  Whatever the address and the trace: if the underlying RPC read
    fails with an exception, [get_balance] prints the error and returns 0;
    if the read succeeds it returns the amount read, converted to ether and
    to a float; and no exception ever leaves it (the operator interrupt,
    which is not an [Exception], is all that can). *)
Theorem get_balance_never_raises (E : env) (a : address) (tr : trace) :
  (forall e,
      env_get_balance E (calls ChBalance tr) a = Exc e ->
      is_Exception e = true ->
      get_balance E a tr
      = (Ret 0%Q, EvPrint (LogBalanceError a e) :: EvGetBalance a :: tr)) /\
  (forall w d,
      env_get_balance E (calls ChBalance tr) a = Val w ->
      from_wei E w = Some d ->
      get_balance E a tr = (Ret (to_float E d), EvGetBalance a :: tr)) /\
  (forall e, fst (get_balance E a tr) = Raise e -> is_Exception e = false) /\
  fst (get_balance E a tr) <> OutOfFuel.
Proof.
  unfold get_balance, try_except_Exception, bind, eth_get_balance,
    w3_from_wei, answer, ret, print, emit.
  repeat split.
  - intros e He Hx. rewrite He, Hx. reflexivity.
  - intros w d Hw Hd. rewrite Hw, Hd. reflexivity.
  - intros e.
    destruct (env_get_balance E (calls ChBalance tr) a) as [w|e1].
    + destruct (from_wei E w) as [d|]; discriminate.
    + destruct e1; simpl; intros H; inversion H; reflexivity.
  - destruct (env_get_balance E (calls ChBalance tr) a) as [w|e1].
    + destruct (from_wei E w) as [d|]; discriminate.
    + destruct e1; simpl; discriminate.
Qed.

Lemma get_balance_never_raises_witness :
  get_balance failing_node "0xa" []
  = (Ret 0%Q,
     [EvPrint (LogBalanceError "0xa" (ConnectionError "node down"));
      EvGetBalance "0xa"]) /\
  get_balance failing_node "0xa" [EvGetBalance "0xa"]
  = (Ret (one_ether # 1000000000000000000)%Q,
     [EvGetBalance "0xa"; EvGetBalance "0xa"]).
Proof.
  split.
  - apply (proj1 (get_balance_never_raises failing_node "0xa" []));
      reflexivity.
  - apply (proj1 (proj2 (get_balance_never_raises failing_node "0xa"
                           [EvGetBalance "0xa"])) one_ether);
      reflexivity.
Defined.

(** ** transfer_funds (C1, C9) *)

(** C1, as the claim states it, fails.  The caller has observed a balance
    of 5 ether and passes it in; the node reports 1 ether when the call
    reads the balance itself, and the fee F is 21000 gwei.  The claim asks
    for one transaction of value 5 ether - F.  Lines 159-203, run as the
    body of the method, sign one transaction of value 1 ether - F: the
    amount passed in plays no part.  The method taken to the letter signs
    nothing at all. *)
Lemma transfer_funds_observed_balance_counterexample :
  let observed := 5 * one_ether in
  let F := 21000 * 1000000000 in
  let out := transfer_funds funded "k" "0xk" "0xr" 5%Q [] in
  observed > F /\
  (exists tx,
      signed (snd out) = [EvSignTransaction tx "k"] /\
      tx_value tx = one_ether - F /\
      tx_value tx <> observed - F) /\
  transfer_funds_as_written "k" "0xk" "0xr" 5%Q [] = (Ret None, []).
Proof.
  cbv zeta. split; [reflexivity|]. split; [|reflexivity].
  eexists. split; [vm_compute; reflexivity|].
  split; [reflexivity|]. vm_compute. discriminate.
Qed.

(** C1, amended.  The balance a call of [transfer_funds] works from is the
    one it reads from the node itself, B, not the amount passed in; the fee
    is F = 21000 * rate, with the rate read in the same call.  If B <= F
    the call returns [False] and nothing is signed, sent or waited for.  A
    call hands at most one transaction to the signer, and one it does hand
    over was built from the nonce, the rate and the balance read in this
    call, with B > F and value B - F. *)
Theorem transfer_funds_sweeps_node_balance
  (E : env) (key : privkey) (from_address to_address : address)
  (amount_eth : Q) (tr : trace) :
  let out := transfer_funds E key from_address to_address amount_eth tr in
  (forall gas_price B,
     env_get_transaction_count E (calls ChNonce tr) from_address
     <> Exc KeyboardInterrupt ->
     env_gas_price E (calls ChGasPrice tr) = Val gas_price ->
     env_get_balance E (calls ChBalance tr) from_address = Val B ->
     B <= 21000 * gas_price ->
     fst out = Ret false /\ transfer_events (snd out) = transfer_events tr) /\
  (signed (snd out) = signed tr \/
   exists nonce gas_price B,
     env_get_transaction_count E (calls ChNonce tr) from_address = Val nonce /\
     env_gas_price E (calls ChGasPrice tr) = Val gas_price /\
     env_get_balance E (calls ChBalance tr) from_address = Val B /\
     21000 * gas_price < B /\
     signed (snd out)
     = EvSignTransaction
         {| tx_nonce := nonce; tx_to := to_address;
            tx_value := B - 21000 * gas_price;
            tx_gas := 21000; tx_gasPrice := gas_price |} key :: signed tr).
Proof.
  intros out. subst out.
  unfold transfer_funds, try_except_Exception, bind,
    eth_get_transaction_count, eth_gas_price, eth_get_balance, w3_from_wei,
    answer, ret, print, emit.
  split.
  - intros g B Hn Hg Hb Hle.
    destruct (env_get_transaction_count E (calls ChNonce tr) from_address)
      as [n|e].
    + cbn [calls on_channel fst snd]. rewrite Hg.
      destruct (from_wei E (21000 * g)) as [f|]; [|split; reflexivity].
      cbn [calls on_channel fst snd]. rewrite Hb.
      destruct (from_wei E B) as [b|]; [|split; reflexivity].
      destruct (from_wei E (B - 21000 * g)) as [d|]; [|split; reflexivity].
      assert (Hz : (B - 21000 * g <=? 0) = true) by (apply Z.leb_le; lia).
      rewrite Hz. split; reflexivity.
    + destruct e; try (split; reflexivity). contradiction Hn. reflexivity.
  - destruct (env_get_transaction_count E (calls ChNonce tr) from_address)
      as [n|e] eqn:Hn; [|left; destruct e; reflexivity].
    cbn [calls on_channel fst snd].
    destruct (env_gas_price E (calls ChGasPrice tr)) as [g|e] eqn:Hg;
      [|left; destruct e; reflexivity].
    destruct (from_wei E (21000 * g)) as [f|]; [|left; reflexivity].
    cbn [calls on_channel fst snd].
    destruct (env_get_balance E (calls ChBalance tr) from_address)
      as [B|e] eqn:Hb; [|left; destruct e; reflexivity].
    destruct (from_wei E B) as [b|]; [|left; reflexivity].
    destruct (from_wei E (B - 21000 * g)) as [d|]; [|left; reflexivity].
    destruct (B - 21000 * g <=? 0) eqn:Hz; [left; reflexivity|].
    right. exists n, g, B.
    repeat split; try reflexivity; [apply Z.leb_gt in Hz; lia|].
    unfold sign_transaction, send_raw_transaction,
      wait_for_transaction_receipt, answer.
    destruct (env_sign_transaction E _ _ _) as [raw|e1].
    + destruct (env_send_raw_transaction E _ _) as [h|e2].
      * cbn [fst snd calls on_channel].
        destruct (env_wait_for_receipt E _ _) as [rc|e3].
        -- destruct (rc_status rc =? 1); reflexivity.
        -- destruct e3; reflexivity.
      * destruct e2; reflexivity.
    + destruct e1; reflexivity.
Qed.

(** An account that holds less than the fee is left alone, whatever amount
    the caller passes in. *)
Lemma transfer_funds_sweeps_node_balance_witness :
  fst (transfer_funds dust "k" "0xk" "0xr" 5%Q []) = Ret false /\
  transfer_events (snd (transfer_funds dust "k" "0xk" "0xr" 5%Q []))
  = transfer_events [].
Proof.
  apply (proj1 (transfer_funds_sweeps_node_balance dust "k" "0xk" "0xr" 5%Q
                  [])
           1000000000 20000000000000).
  - discriminate.
  - reflexivity.
  - reflexivity.
  - vm_compute. discriminate.
Defined.

(** C9.  Two calls of [transfer_funds] that differ in [amount_eth] only are
    the same call: same result, same events, same transaction.  The argument
    is not used; what is sent is computed from the balance, the nonce and
    the fee rate read inside the call. *)
Theorem transfer_funds_ignores_amount_eth
  (E : env) (key : privkey) (from_address to_address : address)
  (amount1 amount2 : Q) (tr : trace) :
  transfer_funds E key from_address to_address amount1 tr
  = transfer_funds E key from_address to_address amount2 tr.
Proof. reflexivity. Qed.

(** ** The bounded poller (C5) *)

Lemma Qgtb_true (a b : Q) : Qgtb a b = true <-> (b < a)%Q.
Proof.
  unfold Qgtb. pose proof (Qgt_alt a b) as H. unfold Qgt in H. rewrite H.
  destruct (a ?= b)%Q; split; congruence.
Qed.

Lemma Qgtb_false (a b : Q) : Qgtb a b = false <-> (a <= b)%Q.
Proof.
  unfold Qgtb. rewrite Qle_alt.
  destruct (a ?= b)%Q; split; congruence.
Qed.

Lemma Qleb_true (a b : Q) : Qleb a b = true <-> (a <= b)%Q.
Proof.
  unfold Qleb. rewrite negb_true_iff. apply Qgtb_false.
Qed.

Lemma Qleb_false (a b : Q) : Qleb a b = false <-> (b < a)%Q.
Proof.
  unfold Qleb. rewrite negb_false_iff. apply Qgtb_true.
Qed.

Lemma polls_snoc (a : address) (n : nat) (tr : trace) :
  (polls a n ++ EvSleep 1 :: EvGetBalance a :: tr)%list
  = (polls a (S n) ++ tr)%list.
Proof.
  induction n as [|n IH]; simpl; [reflexivity|].
  simpl in IH. rewrite IH. reflexivity.
Qed.

(** One round of the [for] loop that does not see the funds. *)
Lemma poll_round_below (E : env) (a : address) (init : Q) (N : Z)
  (i : Z) (rest : list Z) (cur : Q) (tr : trace) (b : Q) :
  balance_reading E a (calls ChBalance tr) = Ret b ->
  (b <= init)%Q ->
  env_sleep E (calls ChSleep tr) = false ->
  exists tr1,
    poll_balance E a init N (i :: rest) cur tr
    = poll_balance E a init N rest b tr1 /\
    io tr1 = EvSleep 1 :: EvGetBalance a :: io tr /\
    calls ChBalance tr1 = S (calls ChBalance tr) /\
    calls ChSleep tr1 = S (calls ChSleep tr).
Proof.
  intros Hr Hle Hs.
  destruct (get_balance_spec E a tr) as (pr & Hpr & Hg).
  rewrite Hr in Hg.
  apply Qgtb_false in Hle.
  exists (EvSleep 1 :: EvPrint (LogCheckingAttempt (i + 1) N b)
            :: pr ++ EvGetBalance a :: tr)%list.
  split; [|split; [|split]].
  - cbn [poll_balance]. unfold bind at 1. rewrite Hg, Hle.
    unfold bind, print, emit, sleep.
    cbn [calls on_channel]. rewrite calls_app_prints by exact Hpr.
    cbn [calls on_channel]. rewrite Hs. reflexivity.
  - unfold io at 1. cbn [filter is_print negb].
    fold (io (pr ++ EvGetBalance a :: tr)%list).
    rewrite io_app_prints by exact Hpr. reflexivity.
  - cbn [calls on_channel]. rewrite calls_app_prints by exact Hpr.
    reflexivity.
  - cbn [calls on_channel]. rewrite calls_app_prints by exact Hpr.
    reflexivity.
Qed.

(** The round of the [for] loop that sees the funds. *)
Lemma poll_round_above (E : env) (a : address) (init : Q) (N : Z)
  (i : Z) (rest : list Z) (cur : Q) (tr : trace) (b : Q) :
  balance_reading E a (calls ChBalance tr) = Ret b ->
  (init < b)%Q ->
  exists tr1,
    poll_balance E a init N (i :: rest) cur tr = (Ret (true, b), tr1) /\
    io tr1 = EvGetBalance a :: io tr.
Proof.
  intros Hr Hlt.
  destruct (get_balance_spec E a tr) as (pr & Hpr & Hg).
  rewrite Hr in Hg.
  apply Qgtb_true in Hlt.
  exists (EvPrint (LogFundsReceivedOnCheck (i + 1) b)
            :: pr ++ EvGetBalance a :: tr)%list.
  split.
  - cbn [poll_balance]. unfold bind at 1. rewrite Hg, Hlt. reflexivity.
  - unfold io at 1. cbn [filter is_print negb].
    fold (io (pr ++ EvGetBalance a :: tr)%list).
    rewrite io_app_prints by exact Hpr. reflexivity.
Qed.

Lemma poll_balance_none (E : env) (a : address) (init : Q) (N : Z) :
  forall (n j : nat) (cur : Q) (tr : trace),
    (forall i, (i < n)%nat ->
       exists b, balance_reading E a (calls ChBalance tr + i) = Ret b /\
                 (b <= init)%Q) ->
    (forall i, (i < n)%nat -> env_sleep E (calls ChSleep tr + i) = false) ->
    exists cur' tr',
      poll_balance E a init N (map Z.of_nat (seq j n)) cur tr
      = (Ret (false, cur'), tr') /\
      io tr' = (polls a n ++ io tr)%list.
Proof.
  induction n as [|n IH]; intros j cur tr Hb Hs.
  - exists cur, tr. split; reflexivity.
  - destruct (Hb O ltac:(lia)) as (b & Hr & Hle).
    rewrite Nat.add_0_r in Hr.
    pose proof (Hs O ltac:(lia)) as Hs0. rewrite Nat.add_0_r in Hs0.
    cbn [seq map].
    destruct (poll_round_below E a init N (Z.of_nat j)
                (map Z.of_nat (seq (S j) n)) cur tr b Hr Hle Hs0)
      as (tr1 & Hstep & Hio & Hcb & Hcs).
    destruct (IH (S j) b tr1) as (cur' & tr' & Hrun & Hio').
    + intros i Hi. rewrite Hcb.
      replace (S (calls ChBalance tr) + i)%nat
        with (calls ChBalance tr + S i)%nat by lia.
      apply Hb; lia.
    + intros i Hi. rewrite Hcs.
      replace (S (calls ChSleep tr) + i)%nat
        with (calls ChSleep tr + S i)%nat by lia.
      apply Hs; lia.
    + exists cur', tr'. split.
      * rewrite Hstep. exact Hrun.
      * rewrite Hio', Hio. apply polls_snoc.
Qed.

Lemma poll_balance_hit (E : env) (a : address) (init : Q) (N : Z) :
  forall (k j m : nat) (cur : Q) (tr : trace) (b : Q),
    (forall i, (i < k)%nat ->
       exists b', balance_reading E a (calls ChBalance tr + i) = Ret b' /\
                  (b' <= init)%Q) ->
    (forall i, (i < k)%nat -> env_sleep E (calls ChSleep tr + i) = false) ->
    balance_reading E a (calls ChBalance tr + k) = Ret b ->
    (init < b)%Q ->
    exists tr',
      poll_balance E a init N (map Z.of_nat (seq j (k + S m))) cur tr
      = (Ret (true, b), tr') /\
      io tr' = EvGetBalance a :: (polls a k ++ io tr)%list.
Proof.
  induction k as [|k IH]; intros j m cur tr b Hb Hs Hr Hlt.
  - rewrite Nat.add_0_r in Hr. cbn [Nat.add seq map].
    destruct (poll_round_above E a init N (Z.of_nat j)
                (map Z.of_nat (seq (S j) m)) cur tr b Hr Hlt)
      as (tr1 & Hstep & Hio).
    exists tr1. split; assumption.
  - destruct (Hb O ltac:(lia)) as (b0 & Hr0 & Hle).
    rewrite Nat.add_0_r in Hr0.
    pose proof (Hs O ltac:(lia)) as Hs0. rewrite Nat.add_0_r in Hs0.
    cbn [Nat.add seq map].
    destruct (poll_round_below E a init N (Z.of_nat j)
                (map Z.of_nat (seq (S j) (k + S m))) cur tr b0 Hr0 Hle Hs0)
      as (tr1 & Hstep & Hio & Hcb & Hcs).
    destruct (IH (S j) m b0 tr1 b) as (tr' & Hrun & Hio').
    + intros i Hi. rewrite Hcb.
      replace (S (calls ChBalance tr) + i)%nat
        with (calls ChBalance tr + S i)%nat by lia.
      apply Hb; lia.
    + intros i Hi. rewrite Hcs.
      replace (S (calls ChSleep tr) + i)%nat
        with (calls ChSleep tr + S i)%nat by lia.
      apply Hs; lia.
    + rewrite Hcb.
      replace (S (calls ChBalance tr) + k)%nat
        with (calls ChBalance tr + S k)%nat by lia.
      exact Hr.
    + exact Hlt.
    + exists tr'. split.
      * rewrite Hstep. exact Hrun.
      * rewrite Hio', Hio.
        f_equal. apply polls_snoc.
Qed.

(** C5.  A call of the bounded poller with limit N.  If each of the N
    balance reads returns an amount that does not exceed
    [initial_balance], the call makes exactly these N reads, sleeps one
    second after each, does nothing else to the outside world (so no
    transfer is attempted) and returns [False].  If read k + 1 (with k < N) is
    the first to exceed [initial_balance], the call makes k + 1 reads and k
    sleeps and then is the transfer loop, started with the amount read. *)
Theorem check_balance_and_transfer_polls
  (E : env) (fuel : nat) (key : privkey) (a recipient : address)
  (init : Q) (check_attempts : Z) (tr : trace) :
  let N := Z.to_nat check_attempts in
  let out :=
    check_balance_and_transfer E fuel key a recipient init check_attempts tr in
  ((forall i, (i < N)%nat ->
      exists b, balance_reading E a (calls ChBalance tr + i) = Ret b /\
                (b <= init)%Q) ->
   (forall i, (i < N)%nat -> env_sleep E (calls ChSleep tr + i) = false) ->
   fst out = Ret false /\ io (snd out) = (polls a N ++ io tr)%list) /\
  (forall (k : nat) (b : Q),
     (k < N)%nat ->
     (forall i, (i < k)%nat ->
        exists b', balance_reading E a (calls ChBalance tr + i) = Ret b' /\
                   (b' <= init)%Q) ->
     (forall i, (i < k)%nat -> env_sleep E (calls ChSleep tr + i) = false) ->
     balance_reading E a (calls ChBalance tr + k) = Ret b ->
     (init < b)%Q ->
     exists tr',
       io tr' = EvGetBalance a :: (polls a k ++ io tr)%list /\
       out = transfer_retry_loop E fuel key a recipient init b 0 tr').
Proof.
  intros N out. subst out. unfold check_balance_and_transfer, range.
  fold N. split.
  - intros Hb Hs.
    destruct (poll_balance_none E a init check_attempts N O 0%Q tr Hb Hs)
      as (cur' & tr' & Hrun & Hio).
    unfold bind. rewrite Hrun. split; [reflexivity|exact Hio].
  - intros k b Hk Hb Hs Hr Hlt.
    replace N with (k + S (N - S k))%nat by lia.
    destruct (poll_balance_hit E a init check_attempts k O (N - S k) 0%Q tr b
                Hb Hs Hr Hlt) as (tr' & Hrun & Hio).
    exists tr'. split; [exact Hio|].
    unfold bind. rewrite Hrun. reflexivity.
Qed.

Lemma check_balance_and_transfer_polls_witness :
  (fst (check_balance_and_transfer calm 5 "k" "0xk" "0xr" 0%Q 10 [])
   = Ret false /\
   io (snd (check_balance_and_transfer calm 5 "k" "0xk" "0xr" 0%Q 10 []))
   = polls "0xk" 10) /\
  (exists tr',
      io tr' = [EvGetBalance "0xk"; EvSleep 1; EvGetBalance "0xk"; EvSleep 1;
                EvGetBalance "0xk"] /\
      check_balance_and_transfer late_funds 5 "k" "0xk" "0xr" 0%Q 10 []
      = transfer_retry_loop late_funds 5 "k" "0xk" "0xr" 0%Q
          (1500000000000000000 # 1000000000000000000)%Q 0 tr').
Proof.
  split.
  - apply (proj1 (check_balance_and_transfer_polls calm 5 "k" "0xk" "0xr"
                    0%Q 10 [])).
    + intros i _. exists 0%Q. split; [reflexivity|]. vm_compute; discriminate.
    + intros i _. reflexivity.
  - apply (proj2 (check_balance_and_transfer_polls late_funds 5 "k" "0xk"
                    "0xr" 0%Q 10 []) 2%nat).
    + simpl; lia.
    + intros i Hi. exists 0%Q.
      destruct i as [|[|i]]; [| |lia];
        (split; [reflexivity|vm_compute; discriminate]).
    + intros i _. reflexivity.
    + reflexivity.
    + reflexivity.
Defined.

(** ** The transfer retry loop (C6) *)

(** C6.  One round of the retry loop in which the sweep fails: the loop
    sleeps, reads the balance once more and compares it with
    [initial_balance].  If the amount read does not exceed the baseline the
    loop returns [False] there and then, with no further sweep; otherwise it
    goes round again.  Both pollers run this loop as their transfer phase:
    the bounded one once its [for] loop has seen the funds, the time-bounded
    one inside its [while] loop at the read that sees them. *)
Theorem transfer_retry_loop_stops_when_funds_gone
  (E : env) (fuel : nat) (key : privkey) (a recipient : address)
  (init : Q) :
  (forall (n : nat) (cur : Q) (rc : Z) (tr tr1 : trace) (b : Q),
     transfer_funds E key a recipient cur
       (EvPrint (LogAttemptTransfer (rc + 1)) :: tr) = (Ret false, tr1) ->
     env_sleep E (calls ChSleep tr1) = false ->
     balance_reading E a (calls ChBalance tr1) = Ret b ->
     exists tr2,
       io tr2 = EvGetBalance a :: EvSleep 1 :: io tr1 /\
       transfer_events tr2 = transfer_events tr1 /\
       ((b <= init)%Q ->
        transfer_retry_loop E (S n) key a recipient init cur rc tr
        = (Ret false, EvPrint LogFundsGone :: tr2)) /\
       ((init < b)%Q ->
        transfer_retry_loop E (S n) key a recipient init cur rc tr
        = transfer_retry_loop E n key a recipient init cur (rc + 1) tr2)) /\
  (forall (N : Z) (tr tr1 : trace) (b : Q),
     poll_balance E a init N (range N) 0%Q tr = (Ret (true, b), tr1) ->
     check_balance_and_transfer E fuel key a recipient init N tr
     = transfer_retry_loop E fuel key a recipient init b 0 tr1) /\
  (forall (n : nat) (timeout start_time : Q) (tr : trace) (b : Q),
     Qltb (env_time E (calls ChTime tr) - start_time) timeout = true ->
     balance_reading E a (calls ChBalance tr) = Ret b ->
     (init < b)%Q ->
     exists tr1,
       io tr1 = EvGetBalance a :: EvTime :: io tr /\
       wait_loop E fuel (S n) key a recipient init timeout start_time tr
       = transfer_retry_loop E fuel key a recipient init b 0 tr1).
Proof.
  split; [|split].
  - intros n cur rc tr tr1 b Ht Hs Hr.
    destruct (get_balance_spec E a
                (EvSleep request_delay
                   :: EvPrint (LogTransferRetry request_delay) :: tr1))
      as (pr & Hpr & Hg).
    cbn [calls on_channel] in Hg. rewrite Hr in Hg.
    exists (pr ++ EvGetBalance a :: EvSleep request_delay
              :: EvPrint (LogTransferRetry request_delay) :: tr1)%list.
    split; [|split; [|split]].
    + rewrite io_app_prints by exact Hpr. reflexivity.
    + unfold transfer_events. rewrite filter_app.
      replace (filter is_transfer_event pr) with (@nil event).
      * reflexivity.
      * clear Hg. induction pr as [|e pr IH]; [reflexivity|].
        simpl in Hpr. apply andb_prop in Hpr. destruct Hpr as [He Hpr].
        destruct e; try discriminate He. simpl. auto.
    + intros Hle. apply Qleb_true in Hle.
      cbn [transfer_retry_loop]. unfold bind at 1. unfold print at 1, emit.
      unfold bind at 1. rewrite Ht.
      unfold bind at 1. unfold print at 1, emit.
      unfold bind at 1. unfold sleep at 1.
      cbn [calls on_channel]. rewrite Hs.
      unfold bind at 1. rewrite Hg. rewrite Hle. reflexivity.
    + intros Hlt. apply Qleb_false in Hlt.
      cbn [transfer_retry_loop]. unfold bind at 1. unfold print at 1, emit.
      unfold bind at 1. rewrite Ht.
      unfold bind at 1. unfold print at 1, emit.
      unfold bind at 1. unfold sleep at 1.
      cbn [calls on_channel]. rewrite Hs.
      unfold bind at 1. rewrite Hg. rewrite Hlt. reflexivity.
  - intros N tr tr1 b Hp.
    unfold check_balance_and_transfer, bind. rewrite Hp. reflexivity.
  - intros n timeout start_time tr b Ht Hr Hlt.
    destruct (get_balance_spec E a (EvTime :: tr)) as (pr & Hpr & Hg).
    cbn [calls on_channel] in Hg. rewrite Hr in Hg.
    apply Qgtb_true in Hlt.
    exists (EvPrint (LogFundsReceived b)
              :: pr ++ EvGetBalance a :: EvTime :: tr)%list.
    split.
    + unfold io at 1. cbn [filter is_print negb].
      fold (io (pr ++ EvGetBalance a :: EvTime :: tr)%list).
      rewrite io_app_prints by exact Hpr. reflexivity.
    + cbn [wait_loop]. unfold bind at 1. unfold time_time at 1.
      rewrite Ht. unfold bind at 1. rewrite Hg, Hlt. reflexivity.
Qed.

Lemma transfer_retry_loop_stops_when_funds_gone_witness :
  exists tr2,
    io tr2
    = EvGetBalance "0xk" :: EvSleep 1
        :: io (snd (transfer_funds reverting "k" "0xk" "0xr" 1%Q
                      [EvPrint (LogAttemptTransfer (0 + 1))])) /\
    transfer_retry_loop reverting 3 "k" "0xk" "0xr" 0%Q 1%Q 0 []
    = (Ret false, EvPrint LogFundsGone :: tr2).
Proof.
  destruct (proj1 (transfer_retry_loop_stops_when_funds_gone reverting 3 "k"
                     "0xk" "0xr" 0%Q)
              2%nat 1%Q 0 []
              (snd (transfer_funds reverting "k" "0xk" "0xr" 1%Q
                      [EvPrint (LogAttemptTransfer (0 + 1))]))
              0%Q eq_refl eq_refl eq_refl)
    as (tr2 & Hio & _ & Hstop & _).
  exists tr2. split; [exact Hio|].
  apply Hstop. vm_compute; discriminate.
Defined.

(** ** Classification of faucet failures (C2, C10) *)

Lemma classify_first_marker (body : bytes) : classify body = first_marker body.
Proof.
  unfold classify, first_marker, marker_table. cbn [find fst].
  repeat match goal with
         | |- context [contains ?m body] => destruct (contains m body)
         end; reflexivity.
Qed.

(** C2, as stated, at a concrete input: a non-200 answer whose body holds the
    phrase "Max retries exceeded with url" is not classified as
    MaxRetriesExceeded; it takes the default branch. *)
Lemma classify_max_retries_phrase_counterexample :
  contains "Max retries exceeded with url"
    "upstream said: Max retries exceeded with url: /faucet" = true /\
  outcome_of false "upstream said: Max retries exceeded with url: /faucet"
  = UnknownFailure /\
  UnknownFailure <> MaxRetriesExceeded /\
  failure_branch calm 5 (mkAccount "a" "0xa") "0xr"
    "upstream said: Max retries exceeded with url: /faucet"
  = unknown_failure_branch calm.
Proof.
  repeat split; try reflexivity. discriminate.
Qed.

(** C2, amended.  The outcome of a failed attempt is read off the returned
    body: an outcome other than UnknownFailure is assigned only when its
    marker of [marker_table] occurs in the body, and UnknownFailure exactly
    when none of the markers does.  The marker of MaxRetriesExceeded is
    "MAX_RETRIES_EXCEEDED"; the phrase "Max retries exceeded with url" is
    looked for in the message of a connection error, not in a body, and
    the client then returns the body "MAX_RETRIES_EXCEEDED" (unless the
    message also says "Connection reset by peer", which gives
    "CONNECTION_RESET"); a read timeout gives the body "TIMEOUT". *)
Theorem classify_reads_body_markers :
  (forall body o,
     outcome_of false body = o -> o <> UnknownFailure ->
     exists m, In (m, o) marker_table /\ contains m body = true) /\
  (forall body,
     (forall m o, In (m, o) marker_table -> contains m body = false) <->
     outcome_of false body = UnknownFailure) /\
  (forall E a tr tr' msg,
     request_faucet_funds_try E a tr = (Raise (ConnectionError msg), tr') ->
     contains "Connection reset by peer" msg = false ->
     contains "Max retries exceeded with url" msg = true ->
     request_faucet_funds E a tr
     = (Ret (false, "MAX_RETRIES_EXCEEDED"), EvPrint LogMaxRetries :: tr') /\
     outcome_of false "MAX_RETRIES_EXCEEDED" = MaxRetriesExceeded) /\
  (forall E a tr tr' msg,
     request_faucet_funds_try E a tr = (Raise (ConnectionError msg), tr') ->
     contains "Connection reset by peer" msg = true ->
     request_faucet_funds E a tr
     = (Ret (false, "CONNECTION_RESET"), EvPrint LogConnectionReset :: tr') /\
     outcome_of false "CONNECTION_RESET" = ConnectionReset) /\
  (forall E a tr tr',
     request_faucet_funds_try E a tr = (Raise ReadTimeout, tr') ->
     request_faucet_funds E a tr
     = (Ret (false, "TIMEOUT"), EvPrint LogReadTimeout :: tr') /\
     outcome_of false "TIMEOUT" = Timeout).
Proof.
  split; [|split; [|split; [|split]]].
  - intros body o Ho Hne. cbn [outcome_of] in Ho. unfold classify in Ho.
    repeat match type of Ho with
           | context [contains ?m body] =>
               let H := fresh "Hc" in
               destruct (contains m body) eqn:H;
                 [ subst o; exists m; split; [cbn; tauto | exact H] | ]
           end.
    congruence.
  - intros body. cbn [outcome_of]. rewrite classify_first_marker.
    unfold first_marker. split.
    + intros Hnone.
      replace (find (fun m => contains (fst m) body) marker_table)
        with (@None (string * FaucetOutcome)); [reflexivity|].
      symmetry. cbn [marker_table find fst].
      repeat match goal with
             | |- context [contains ?m body] =>
                 let H := fresh "Hc" in
                 assert (H : contains m body = false)
                   by (eapply Hnone; cbn [marker_table In]; eauto 12);
                 rewrite H
             end.
      reflexivity.
    + unfold marker_table. cbn [find fst].
      intros Hu m o Hin.
      repeat match type of Hu with
             | context [contains ?k body] =>
                 let H := fresh "Hc" in
                 destruct (contains k body) eqn:H; [discriminate Hu|]
             end.
      cbn in Hin.
      repeat match type of Hin with
             | _ \/ _ => destruct Hin as [Hin|Hin]
             end;
        inversion Hin; subst; assumption.
  - intros E a tr tr' msg Ht Hr Hm.
    unfold request_faucet_funds. rewrite Ht, Hr, Hm. split; reflexivity.
  - intros E a tr tr' msg Ht Hr.
    unfold request_faucet_funds. rewrite Ht, Hr. split; reflexivity.
  - intros E a tr tr' Ht.
    unfold request_faucet_funds. rewrite Ht. split; reflexivity.
Qed.

Lemma classify_reads_body_markers_witness :
  request_faucet_funds unreachable_faucet "0xa" []
  = (Ret (false, "MAX_RETRIES_EXCEEDED"),
     EvPrint LogMaxRetries
       :: snd (request_faucet_funds_try unreachable_faucet "0xa" [])) /\
  outcome_of false "MAX_RETRIES_EXCEEDED" = MaxRetriesExceeded.
Proof.
  apply (proj1 (proj2 (proj2 classify_reads_body_markers))
           unreachable_faucet "0xa" []
           (snd (request_faucet_funds_try unreachable_faucet "0xa" []))
           "HTTPSConnectionPool(host='faucet.chainplatform.co', port=443): Max retries exceeded with url: /api/ethereum-sepolia/faucet");
    reflexivity.
Defined.

(** C10.  Whatever markers a failed attempt's body holds, the orchestrator
    runs one branch: that of the first marker, in the order
    MAX_RETRIES_EXCEEDED, TRANSACTION_REPLACED, REPLACEMENT_UNDERPRICED,
    RATE_LIMIT, the temporarily-forbidden phrase, ACCESS_RESTRICTED, TIMEOUT,
    CONNECTION_RESET, which the body contains (the default branch if it
    contains none).  So a body with both RATE_LIMIT and ACCESS_RESTRICTED,
    and none of the three markers ahead of RATE_LIMIT, is handled as
    RateLimited. *)
Theorem failure_branch_follows_precedence
  (E : env) (fuel : nat) (acc : account) (recipient : address)
  (body : bytes) :
  outcome_of false body = first_marker body /\
  failure_branch E fuel acc recipient body
  = branch_for E fuel acc recipient (first_marker body) /\
  (contains "RATE_LIMIT" body = true ->
   contains "ACCESS_RESTRICTED" body = true ->
   contains "MAX_RETRIES_EXCEEDED" body = false ->
   contains "TRANSACTION_REPLACED" body = false ->
   contains "REPLACEMENT_UNDERPRICED" body = false ->
   first_marker body = RateLimited /\
   failure_branch E fuel acc recipient body
   = rate_limit_branch E fuel acc recipient).
Proof.
  assert (Hb : failure_branch E fuel acc recipient body
               = branch_for E fuel acc recipient (first_marker body)).
  { unfold failure_branch, first_marker, marker_table. cbn [find fst].
    repeat match goal with
           | |- context [contains ?m body] => destruct (contains m body)
           end; reflexivity. }
  split; [apply classify_first_marker|]. split; [exact Hb|].
  intros Hr Ha H1 H2 H3.
  assert (Hf : first_marker body = RateLimited).
  { unfold first_marker, marker_table. cbn [find fst].
    rewrite H1, H2, H3, Hr. reflexivity. }
  split; [exact Hf|]. rewrite Hb, Hf. reflexivity.
Qed.

Lemma failure_branch_follows_precedence_witness :
  first_marker "ACCESS_RESTRICTED after RATE_LIMIT" = RateLimited /\
  failure_branch calm 5 (mkAccount "a" "0xa") "0xr"
    "ACCESS_RESTRICTED after RATE_LIMIT"
  = rate_limit_branch calm 5 (mkAccount "a" "0xa") "0xr".
Proof.
  apply (proj2 (proj2 (failure_branch_follows_precedence calm 5
                         (mkAccount "a" "0xa") "0xr"
                         "ACCESS_RESTRICTED after RATE_LIMIT")));
    reflexivity.
Defined.

(** ** The cycle boundary (C7) *)

Lemma run_bot_iteration_break (E : env) (fuel : nat) (recipient : address)
  (s s1 : bot_state) :
  run_bot_iteration E fuel recipient s = (Ret Break, s1) ->
  exists s',
    cycle_body E fuel recipient s = (Raise KeyboardInterrupt, s') /\
    s1 = (fst s', EvPrint LogStopped :: snd s').
Proof.
  unfold run_bot_iteration.
  destruct (cycle_body E fuel recipient s) as [[u|e|] s'] eqn:Hc.
  - discriminate.
  - destruct e;
      unfold bind, get_locals, lift, print, emit, sleep, ret; cbn [fst snd];
      try (destruct (env_sleep E _); discriminate).
    intros H. inversion H. exists s'. split; reflexivity.
  - discriminate.
Qed.

Lemma run_bot_iteration_raise (E : env) (fuel : nat) (recipient : address)
  (s s1 : bot_state) (e : exn) :
  run_bot_iteration E fuel recipient s = (Raise e, s1) ->
  e = KeyboardInterrupt.
Proof.
  unfold run_bot_iteration.
  destruct (cycle_body E fuel recipient s) as [[u|e0|] s'] eqn:Hc.
  - discriminate.
  - destruct e0;
      unfold bind, get_locals, lift, print, emit, sleep, ret; cbn [fst snd];
      try discriminate;
      destruct (env_sleep E _); intros H; inversion H; reflexivity.
  - discriminate.
Qed.

Lemma run_bot_iteration_stop (E : env) (fuel : nat) (recipient : address)
  (s s' : bot_state) :
  cycle_body E fuel recipient s = (Raise KeyboardInterrupt, s') ->
  run_bot_iteration E fuel recipient s
  = (Ret Break, (fst s', EvPrint LogStopped :: snd s')).
Proof.
  intros Hc. unfold run_bot_iteration. rewrite Hc. reflexivity.
Qed.

Lemma run_bot_iteration_done (E : env) (fuel : nat) (recipient : address)
  (s s' : bot_state) (u : unit) :
  cycle_body E fuel recipient s = (Ret u, s') ->
  run_bot_iteration E fuel recipient s = (Ret Continue, s').
Proof.
  intros Hc. unfold run_bot_iteration. rewrite Hc. reflexivity.
Qed.

(** An interrupt leaves a round only from the sleep of the handler. *)
Lemma run_bot_iteration_raise_in_handler (E : env) (fuel : nat)
  (recipient : address) (s s1 : bot_state) (e : exn) :
  run_bot_iteration E fuel recipient s = (Raise e, s1) ->
  e = KeyboardInterrupt /\
  exists e' s',
    cycle_body E fuel recipient s = (Raise e', s') /\
    is_Exception e' = true /\
    env_sleep E (calls ChSleep (snd s')) = true.
Proof.
  intros H. split; [exact (run_bot_iteration_raise E fuel recipient s s1 e H)|].
  unfold run_bot_iteration in H.
  destruct (cycle_body E fuel recipient s) as [[u|e0|] s'] eqn:Hc;
    try discriminate H.
  exists e0, s'.
  destruct e0;
    unfold bind, get_locals, lift, print, emit, sleep, ret in H;
    cbn [fst snd calls on_channel] in H;
    try discriminate H;
    (destruct (env_sleep E (calls ChSleep (snd s'))) eqn:Hs;
     [repeat split; reflexivity | discriminate H]).
Qed.

(** One turn of the outer loop. *)
Lemma run_bot_loop_step (E : env) (fuel n : nat) (recipient : address)
  (s : bot_state) :
  run_bot_loop E fuel (S n) recipient s
  = match run_bot_iteration E fuel recipient s with
    | (Ret Break, s1) => (Ret tt, s1)
    | (Ret Continue, s1) => run_bot_loop E fuel n recipient s1
    | (Raise e, s1) => (Raise e, s1)
    | (OutOfFuel, s1) => (OutOfFuel, s1)
    end.
Proof.
  cbn [run_bot_loop]. unfold bind.
  destruct (run_bot_iteration E fuel recipient s) as [[[|]|e|] s1];
    reflexivity.
Qed.

Lemma run_bot_loop_returns (E : env) (fuel : nat) (recipient : address) :
  forall (n : nat) (s s_end : bot_state),
    run_bot_loop E fuel n recipient s = (Ret tt, s_end) <->
    exists k s_k s',
      (k < n)%nat /\
      rounds E fuel recipient k s = Some s_k /\
      cycle_body E fuel recipient s_k = (Raise KeyboardInterrupt, s') /\
      s_end = (fst s', EvPrint LogStopped :: snd s').
Proof.
  induction n as [|n IH]; intros s s_end.
  - split; [discriminate|]. intros (k & _ & _ & Hk & _). lia.
  - rewrite run_bot_loop_step.
    destruct (run_bot_iteration E fuel recipient s) as [[[|]|e|] s1] eqn:Hi.
    + split.
      * intros H. inversion H; subst s1.
        destruct (run_bot_iteration_break E fuel recipient s s_end Hi)
          as (s' & Hc & Hs).
        exists 0%nat, s, s'. repeat split; [lia|exact Hc|exact Hs].
      * intros (k & s_k & s' & _ & Hr & Hc & Hs).
        destruct k as [|k]; cbn [rounds] in Hr.
        -- inversion Hr; subst s_k.
           rewrite (run_bot_iteration_stop E fuel recipient s s' Hc) in Hi.
           inversion Hi. subst. reflexivity.
        -- rewrite Hi in Hr. discriminate Hr.
    + rewrite IH. split.
      * intros (k & s_k & s' & Hk & Hr & Hc & Hs).
        exists (S k), s_k, s'. cbn [rounds]. rewrite Hi.
        repeat split; [lia|exact Hr|exact Hc|exact Hs].
      * intros (k & s_k & s' & Hk & Hr & Hc & Hs).
        destruct k as [|k]; cbn [rounds] in Hr.
        -- inversion Hr; subst s_k.
           rewrite (run_bot_iteration_stop E fuel recipient s s' Hc) in Hi.
           discriminate Hi.
        -- rewrite Hi in Hr.
           exists k, s_k, s'. repeat split; [lia|exact Hr|exact Hc|exact Hs].
    + split; [discriminate|].
      intros (k & s_k & s' & _ & Hr & Hc & _).
      destruct k as [|k]; cbn [rounds] in Hr.
      * inversion Hr; subst s_k.
        rewrite (run_bot_iteration_stop E fuel recipient s s' Hc) in Hi.
        discriminate Hi.
      * rewrite Hi in Hr. discriminate Hr.
    + split; [discriminate|].
      intros (k & s_k & s' & _ & Hr & Hc & _).
      destruct k as [|k]; cbn [rounds] in Hr.
      * inversion Hr; subst s_k.
        rewrite (run_bot_iteration_stop E fuel recipient s s' Hc) in Hi.
        discriminate Hi.
      * rewrite Hi in Hr. discriminate Hr.
Qed.

Lemma run_bot_loop_raises (E : env) (fuel : nat) (recipient : address) :
  forall (n : nat) (s s_end : bot_state) (e : exn),
    run_bot_loop E fuel n recipient s = (Raise e, s_end) ->
    e = KeyboardInterrupt /\
    exists k s_k s' e',
      (k < n)%nat /\
      rounds E fuel recipient k s = Some s_k /\
      cycle_body E fuel recipient s_k = (Raise e', s') /\
      is_Exception e' = true /\
      env_sleep E (calls ChSleep (snd s')) = true.
Proof.
  induction n as [|n IH]; intros s s_end e H.
  - discriminate H.
  - rewrite run_bot_loop_step in H.
    destruct (run_bot_iteration E fuel recipient s) as [[[|]|e0|] s1] eqn:Hi;
      try discriminate H.
    + destruct (IH s1 s_end e H) as (He & k & s_k & s' & e' & Hk & Hr & Hc).
      split; [exact He|].
      exists (S k), s_k, s', e'. cbn [rounds]. rewrite Hi.
      split; [lia|]. split; [exact Hr|exact Hc].
    + inversion H; subst e0 s1.
      destruct (run_bot_iteration_raise_in_handler E fuel recipient s s_end e
                  Hi) as (He & e' & s' & Hc).
      split; [exact He|].
      exists 0%nat, s, s', e'. split; [lia|]. split; [reflexivity|exact Hc].
Qed.

Lemma run_bot_loop_still_running (E : env) (fuel : nat)
  (recipient : address) :
  forall (n : nat) (s s_n : bot_state),
    rounds E fuel recipient n s = Some s_n ->
    run_bot_loop E fuel n recipient s = (OutOfFuel, s_n).
Proof.
  induction n as [|n IH]; intros s s_n Hr.
  - cbn in Hr. inversion Hr. reflexivity.
  - rewrite run_bot_loop_step. cbn [rounds] in Hr.
    destruct (run_bot_iteration E fuel recipient s) as [[[|]|e|] s1];
      try discriminate Hr.
    apply IH. exact Hr.
Qed.

(** C7.  If the body of a cycle raises an exception (anything but the
    operator interrupt), the round prints it, sleeps [request_delay] = 1 and
    the loop goes on with its next round from the state the body left.  A
    body that ends normally also leads to the next round, and a round ends
    the loop exactly when its body was interrupted by the operator.  For
    the loop as a whole, with [rounds k s] the state after k rounds that
    each went on to the next:
    - the loop returns if and only if, after some number of such rounds,
      the body of the next round is interrupted by the operator; it then
      stops with the line that says so;
    - nothing but the operator interrupt ever leaves the loop as an
      exception, and it does so only when it arrives during the sleep of
      the handler, after a body that raised an exception;
    - after n rounds that each went on to the next, the loop is still
      running.
    [run_bot] is this loop, started on the locals of lines 242-245 after the
    three opening lines. *)
Theorem run_bot_survives_cycle_failure
  (E : env) (fuel : nat) (recipient : address) :
  (forall (s s' : bot_state) (e : exn),
     cycle_body E fuel recipient s = (Raise e, s') ->
     is_Exception e = true ->
     env_sleep E (calls ChSleep (snd s')) = false ->
     let s1 :=
       (fst s',
        EvSleep 1 :: EvPrint (LogRetrying 1)
          :: EvPrint (LogUnexpected (l_cycle (fst s')) e) :: snd s') in
     run_bot_iteration E fuel recipient s = (Ret Continue, s1) /\
     forall n,
       run_bot_loop E fuel (S n) recipient s
       = run_bot_loop E fuel n recipient s1) /\
  (forall (s s1 : bot_state),
     run_bot_iteration E fuel recipient s = (Ret Break, s1) ->
     exists s',
       cycle_body E fuel recipient s = (Raise KeyboardInterrupt, s') /\
       s1 = (fst s', EvPrint LogStopped :: snd s')) /\
  (forall (s s' : bot_state),
     (cycle_body E fuel recipient s = (Raise KeyboardInterrupt, s') ->
      run_bot_iteration E fuel recipient s
      = (Ret Break, (fst s', EvPrint LogStopped :: snd s'))) /\
     (cycle_body E fuel recipient s = (Ret tt, s') ->
      run_bot_iteration E fuel recipient s = (Ret Continue, s') /\
      forall n,
        run_bot_loop E fuel (S n) recipient s
        = run_bot_loop E fuel n recipient s') /\
     (forall e,
        cycle_body E fuel recipient s = (Raise e, s') ->
        is_Exception e = true ->
        env_sleep E (calls ChSleep (snd s')) = true ->
        fst (run_bot_iteration E fuel recipient s) = Raise KeyboardInterrupt)) /\
  (forall (n : nat) (s s_end : bot_state),
     run_bot_loop E fuel n recipient s = (Ret tt, s_end) <->
     exists k s_k s',
       (k < n)%nat /\
       rounds E fuel recipient k s = Some s_k /\
       cycle_body E fuel recipient s_k = (Raise KeyboardInterrupt, s') /\
       s_end = (fst s', EvPrint LogStopped :: snd s')) /\
  (forall (n : nat) (s s_end : bot_state) (e : exn),
     run_bot_loop E fuel n recipient s = (Raise e, s_end) ->
     e = KeyboardInterrupt /\
     exists k s_k s' e',
       (k < n)%nat /\
       rounds E fuel recipient k s = Some s_k /\
       cycle_body E fuel recipient s_k = (Raise e', s') /\
       is_Exception e' = true /\
       env_sleep E (calls ChSleep (snd s')) = true) /\
  (forall (n : nat) (s s_n : bot_state),
     rounds E fuel recipient n s = Some s_n ->
     run_bot_loop E fuel n recipient s = (OutOfFuel, s_n)) /\
  (forall tr : trace,
     let start :=
       (initial_locals,
        EvPrint LogSeparator :: EvPrint (LogRecipient recipient)
          :: EvPrint LogStart :: tr) in
     run_bot E fuel recipient tr
     = (fst (run_bot_loop E fuel fuel recipient start),
        snd (snd (run_bot_loop E fuel fuel recipient start)))).
Proof.
  split; [|split; [|split; [|split; [|split; [|split]]]]].
  - intros s s' e Hc He Hs s1.
    assert (Hi : run_bot_iteration E fuel recipient s = (Ret Continue, s1)).
    { unfold run_bot_iteration. rewrite Hc.
      destruct e; try discriminate He;
        unfold bind, get_locals, lift, print, emit, sleep, ret;
        cbn [fst snd calls on_channel]; rewrite Hs; reflexivity. }
    split; [exact Hi|].
    intros n. rewrite run_bot_loop_step, Hi. reflexivity.
  - intros s s1. apply run_bot_iteration_break.
  - intros s s'. split; [|split].
    + apply run_bot_iteration_stop.
    + intros Hc.
      pose proof (run_bot_iteration_done E fuel recipient s s' tt Hc) as Hi.
      split; [exact Hi|].
      intros n. rewrite run_bot_loop_step, Hi. reflexivity.
    + intros e Hc He Hs. unfold run_bot_iteration. rewrite Hc.
      destruct e; try discriminate He;
        unfold bind, get_locals, lift, print, emit, sleep, ret;
        cbn [fst snd calls on_channel]; rewrite Hs; reflexivity.
  - apply run_bot_loop_returns.
  - apply run_bot_loop_raises.
  - apply run_bot_loop_still_running.
  - intros tr start. unfold run_bot. fold start.
    destruct (run_bot_loop E fuel fuel recipient start) as [r s]. reflexivity.
Qed.

(** A first cycle that fails at the draw of the key is retried, and after
    that round the loop is still running; an operator who interrupts the
    first sleep of the first cycle stops the loop. *)
Lemma run_bot_survives_cycle_failure_witness :
  run_bot_iteration broken_entropy 5 "0xr" (initial_locals, [])
  = (Ret Continue,
     (initial_locals,
      [EvSleep 1; EvPrint (LogRetrying 1);
       EvPrint (LogUnexpected 1 (OtherException "OSError"));
       EvUrandom 32; EvPrint (LogCycle 1)])) /\
  run_bot_loop broken_entropy 5 1 "0xr" (initial_locals, [])
  = (OutOfFuel,
     (initial_locals,
      [EvSleep 1; EvPrint (LogRetrying 1);
       EvPrint (LogUnexpected 1 (OtherException "OSError"));
       EvUrandom 32; EvPrint (LogCycle 1)])) /\
  fst (run_bot_loop impatient 5 1 "0xr" (initial_locals, [])) = Ret tt.
Proof.
  pose proof (run_bot_survives_cycle_failure broken_entropy 5 "0xr")
    as (Hfail & _ & _ & _ & _ & Hrun & _).
  pose proof (run_bot_survives_cycle_failure impatient 5 "0xr")
    as (_ & _ & _ & Hret & _ & _ & _).
  split; [|split].
  - apply (proj1 (Hfail (initial_locals, [])
                    (initial_locals, [EvUrandom 32; EvPrint (LogCycle 1)])
                    (OtherException "OSError") eq_refl eq_refl eq_refl)).
  - apply Hrun. vm_compute. reflexivity.
  - assert (Hc : exists s',
               cycle_body impatient 5 "0xr" (initial_locals, [])
               = (Raise KeyboardInterrupt, s')).
    { eexists. vm_compute. reflexivity. }
    destruct Hc as (s' & Hc).
    rewrite (proj2 (Hret 1%nat (initial_locals, [])
                      (fst s', EvPrint LogStopped :: snd s'))).
    + reflexivity.
    + exists 0%nat, (initial_locals, []), s'.
      repeat split; [lia|exact Hc].
Defined.

(** ** The rate-limit branch (C4) *)

(** C4, as stated, at a concrete input: the faucet is rate limited and the
    account stays empty.  Two passes of the poller would make twenty balance
    reads with a re-baselining read in between; the branch makes the ten
    reads of one pass and leaves. *)
Lemma rate_limit_branch_one_pass_counterexample :
  rate_limit_branch rate_limited 5 (mkAccount "a" "0xa") "0xr"
    (sample_locals, [])
  <> rate_limit_two_passes rate_limited 5 (mkAccount "a" "0xa") "0xr"
       (sample_locals, []) /\
  io (snd (snd (rate_limit_branch rate_limited 5 (mkAccount "a" "0xa") "0xr"
                  (sample_locals, []))))
  = EvSleep 1 :: polls "0xa" 10 /\
  io (snd (snd (rate_limit_two_passes rate_limited 5 (mkAccount "a" "0xa")
                  "0xr" (sample_locals, []))))
  = (EvSleep 1 :: polls "0xa" 10 ++ EvGetBalance "0xa" :: polls "0xa" 10)%list.
Proof.
  split; [|split].
  - vm_compute. discriminate.
  - vm_compute. reflexivity.
  - vm_compute. reflexivity.
Qed.

(** C4, amended.  On a rate-limited answer the orchestrator runs the bounded
    poller (ten checks) once.  If that pass returns [False] (no funds seen,
    or the sweep given up) there is no second pass.  If it returns [True]
    (funds seen and swept) the orchestrator reads the balance again, makes
    it the new [initial_balance] and runs the poller a second time against
    it.  Either way, and whatever the second pass returns, the cycle
    counter goes up by one, [reuse] is left as it is, the orchestrator
    sleeps [request_delay] and leaves the inner loop. *)
Theorem rate_limit_branch_second_pass_after_success
  (E : env) (fuel : nat) (acc : account) (recipient : address)
  (s : bot_state) :
  let l := fst s in
  let first :=
    check_balance_and_transfer E fuel (private_key acc) (acct_address acc)
      recipient (l_initial_balance l) 10
      (EvPrint LogRateLimitDetected :: snd s) in
  (forall tr1,
     first = (Ret false, tr1) ->
     env_sleep E (calls ChSleep tr1) = false ->
     rate_limit_branch E fuel acc recipient s
     = (Ret Break,
        (incr_cycle l,
         EvSleep 1 :: EvPrint LogNoFundsAfterChecks :: tr1))) /\
  (forall tr1 b tr2 ok2 tr3,
     first = (Ret true, tr1) ->
     get_balance E (acct_address acc) (EvPrint LogRecheckSecond :: tr1)
     = (Ret b, tr2) ->
     check_balance_and_transfer E fuel (private_key acc) (acct_address acc)
       recipient b 10 tr2 = (Ret ok2, tr3) ->
     env_sleep E (calls ChSleep tr3) = false ->
     rate_limit_branch E fuel acc recipient s
     = (Ret Break,
        (incr_cycle (set_initial_balance b l),
         EvSleep 1
           :: EvPrint (if ok2 then LogSecondOk else LogNoAdditional)
           :: tr3))) /\
  (forall c s1,
     rate_limit_branch E fuel acc recipient s = (Ret c, s1) ->
     c = Break /\ l_reuse (fst s1) = l_reuse l /\
     l_cycle (fst s1) = l_cycle l + 1 /\
     l_temp_account (fst s1) = l_temp_account l).
Proof.
  intros l first. subst l first.
  destruct s as [l tr]. cbn [fst snd].
  unfold rate_limit_branch, bind, lift, get_locals, modify, print, emit, ret.
  cbn [fst snd].
  split; [|split].
  - intros tr1 H1 Hs. rewrite H1. unfold sleep.
    cbn [fst snd calls on_channel]. rewrite Hs. reflexivity.
  - intros tr1 b tr2 ok2 tr3 H1 Hb H2 Hs. rewrite H1.
    cbv beta iota; cbn [fst snd]. rewrite Hb.
    cbv beta iota; cbn [fst snd set_initial_balance l_initial_balance].
    rewrite H2. cbv beta iota; cbn [fst snd].
    unfold sleep. destruct ok2; cbn [fst snd calls on_channel]; rewrite Hs;
      reflexivity.
  - intros c s1 H. unfold sleep in H.
    run_cases H; inversion H; subst; repeat split; reflexivity.
Qed.

Lemma rate_limit_branch_second_pass_after_success_witness :
  rate_limit_branch rate_limited 5 (mkAccount "a" "0xa") "0xr"
    (sample_locals, [])
  = (Ret Break,
     (incr_cycle sample_locals,
      EvSleep 1 :: EvPrint LogNoFundsAfterChecks
        :: snd (check_balance_and_transfer rate_limited 5 "a" "0xa" "0xr"
                  0%Q 10 [EvPrint LogRateLimitDetected]))).
Proof.
  apply (proj1 (rate_limit_branch_second_pass_after_success rate_limited 5
                  (mkAccount "a" "0xa") "0xr" (sample_locals, []))
           (snd (check_balance_and_transfer rate_limited 5 "a" "0xa" "0xr"
                   0%Q 10 [EvPrint LogRateLimitDetected]))
           eq_refl eq_refl).
Defined.

(** ** Reuse of the account (C3) *)

Lemma failure_branch_branch_for (E : env) (fuel : nat) (acc : account)
  (recipient : address) (body : bytes) :
  failure_branch E fuel acc recipient body
  = branch_for E fuel acc recipient (classify body).
Proof.
  unfold failure_branch, classify.
  repeat match goal with
         | |- context [contains ?m body] => destruct (contains m body)
         end; reflexivity.
Qed.

(** What a branch does to the locals. *)
Lemma branch_for_locals (E : env) (fuel : nat) (acc : account)
  (recipient : address) (o : FaucetOutcome) (s s1 : bot_state) (c : ctl) :
  branch_for E fuel acc recipient o s = (Ret c, s1) ->
  l_temp_account (fst s1) = l_temp_account (fst s) /\
  l_success (fst s1) = l_success (fst s) /\
  l_response_content (fst s1) = l_response_content (fst s) /\
  match c with
  | Break =>
      l_reuse (fst s1) = (reuse_outcome o || l_reuse (fst s))%bool /\
      (reuse_outcome o || fresh_outcome o)%bool = true
  | Continue => l_reuse (fst s1) = l_reuse (fst s)
  end.
Proof.
  destruct s as [l tr]. intros H.
  destruct o; cbn [branch_for] in H;
    unfold success_branch, rate_limit_branch, advance_with_reuse,
      retry_same_address, unknown_failure_branch,
      bind, lift, get_locals, modify, print, emit, sleep, ret in H;
    cbn [fst snd] in H;
    run_cases H; inversion H; subst; cbn; repeat split; reflexivity.
Qed.

Lemma faucet_attempt_locals (E : env) (fuel : nat) (acc : account)
  (recipient : address) (s s1 : bot_state) (c : ctl) :
  faucet_attempt E fuel acc recipient s = (Ret c, s1) ->
  l_temp_account (fst s1) = l_temp_account (fst s) /\
  match c with
  | Break =>
      l_reuse (fst s1)
      = (reuse_outcome (last_outcome (fst s1)) || l_reuse (fst s))%bool /\
      (reuse_outcome (last_outcome (fst s1))
       || fresh_outcome (last_outcome (fst s1)))%bool = true
  | Continue => l_reuse (fst s1) = l_reuse (fst s)
  end.
Proof.
  destruct s as [l tr]. unfold faucet_attempt.
  unfold bind at 1. unfold lift at 1. cbn [fst snd].
  destruct (request_faucet_funds E (acct_address acc) tr)
    as [[[ok body]|e|] tr1]; try discriminate.
  unfold bind at 1. unfold modify at 1. cbn [fst snd].
  intros H.
  assert (Hb : branch_for E fuel acc recipient (outcome_of ok body)
                 (set_response (ok, body) l, tr1) = (Ret c, s1)).
  { destruct ok; cbn [outcome_of branch_for]; [exact H|].
    rewrite <- failure_branch_branch_for. exact H. }
  apply branch_for_locals in Hb. cbn [fst snd] in Hb.
  destruct Hb as (Ha & Hs & Hr & Hc).
  cbn [set_response l_temp_account l_success l_response_content l_reuse
         fst snd] in Ha, Hs, Hr, Hc.
  split; [exact Ha|].
  unfold last_outcome. rewrite Hs, Hr. exact Hc.
Qed.

Lemma faucet_loop_locals (E : env) (fuel : nat) (acc : account)
  (recipient : address) :
  forall (n : nat) (s s1 : bot_state),
    l_reuse (fst s) = false ->
    faucet_loop E fuel n acc recipient s = (Ret tt, s1) ->
    l_temp_account (fst s1) = l_temp_account (fst s) /\
    l_reuse (fst s1) = reuse_outcome (last_outcome (fst s1)) /\
    (reuse_outcome (last_outcome (fst s1))
     || fresh_outcome (last_outcome (fst s1)))%bool = true.
Proof.
  induction n as [|n IH]; intros s s1 Hr H.
  - discriminate H.
  - cbn [faucet_loop] in H. unfold bind in H.
    destruct (faucet_attempt E fuel acc recipient s) as [[c|e|] s2] eqn:Ha;
      try discriminate H.
    apply faucet_attempt_locals in Ha. destruct Ha as (Hacc & Hc).
    destruct c.
    + unfold ret in H. inversion H. subst s2.
      destruct Hc as (Hre & Hof). rewrite Hr, orb_false_r in Hre.
      repeat split; assumption.
    + rewrite Hr in Hc.
      destruct (IH s2 s1 Hc H) as (Hacc' & Hre & Hof).
      repeat split; try assumption. congruence.
Qed.

Lemma select_account_reuse (E : env) (l : locals) (tr : trace)
  (acc : account) :
  l_reuse l = true ->
  l_temp_account l = Some acc ->
  select_account E (l, tr)
  = (Ret acc,
     (set_reuse false l,
      EvPrint (LogPrivateKey (strip_0x (private_key acc)))
        :: EvPrint (LogGenerated (Some (acct_address acc)))
        :: EvPrint (LogReusing (Some (acct_address acc))) :: tr)).
Proof.
  intros Hr Ha.
  unfold select_account, bind, lift, get_locals, modify, print, emit, ret,
    temp_address.
  cbn [fst snd]. rewrite Hr. cbn [negb fst snd set_reuse l_temp_account].
  rewrite Ha. reflexivity.
Qed.

Lemma select_account_fresh (E : env) (l : locals) (tr : trace)
  (k : privkey) (a : address) :
  l_reuse l = false ->
  env_urandom E (calls ChUrandom tr) = Val k ->
  from_key E k = Some a ->
  select_account E (l, tr)
  = (Ret (mkAccount k a),
     (set_temp_account (Some (mkAccount k a)) l,
      EvPrint (LogPrivateKey (strip_0x k))
        :: EvPrint (LogGenerated (Some a)) :: EvUrandom 32 :: tr)).
Proof.
  intros Hr Hu Hk.
  unfold select_account, generate_random_account, urandom_hex,
    account_from_key, answer, bind, lift, get_locals, modify, print, emit,
    ret, temp_address.
  cbn [fst snd]. rewrite Hr. cbn [negb fst snd]. rewrite Hu.
  cbn [fst snd]. rewrite Hk. reflexivity.
Qed.

Lemma select_account_locals (E : env) (s s1 : bot_state) (acc : account) :
  select_account E s = (Ret acc, s1) ->
  l_temp_account (fst s1) = Some acc /\ l_reuse (fst s1) = false.
Proof.
  destruct s as [l tr]. intros H.
  unfold select_account, bind, lift, get_locals, modify, print, emit, ret,
    raise in H.
  cbn [fst snd] in H.
  destruct (l_reuse l) eqn:Hr; cbn [negb] in H; cbv beta iota in H;
    cbn [fst snd set_reuse set_temp_account l_temp_account] in H;
    run_cases H; inversion H; subst; cbn [fst snd];
    cbn [set_reuse set_temp_account l_temp_account l_reuse] in *;
    split; congruence.
Qed.

(** Where a cycle that runs to its end leaves the locals. *)
Lemma cycle_body_locals (E : env) (fuel : nat) (recipient : address)
  (s s1 : bot_state) :
  cycle_body E fuel recipient s = (Ret tt, s1) ->
  exists acc s0,
    select_account E (next_cycle_start s) = (Ret acc, s0) /\
    l_temp_account (fst s1) = Some acc /\
    l_reuse (fst s1) = reuse_outcome (last_outcome (fst s1)) /\
    (reuse_outcome (last_outcome (fst s1))
     || fresh_outcome (last_outcome (fst s1)))%bool = true.
Proof.
  destruct s as [l tr]. intros H.
  unfold cycle_body, next_cycle_start, bind, lift, get_locals, modify,
    print, emit, ret in H.
  cbn [fst snd] in H. run_cases H. inversion H; subst; clear H.
  cbn [fst snd].
  match goal with
  | Hsel : select_account E _ = (Ret ?acc, ?s0),
    Hloop : faucet_loop E fuel fuel ?acc recipient _ = (Ret _, ?s2) |- _ =>
      pose proof (select_account_locals E _ _ _ Hsel) as (Hacc & Hre);
      destruct s0 as [l0 tr0]; cbn [fst snd] in *;
      match type of Hloop with
      | _ = (Ret ?u, _) => destruct u
      end;
      apply faucet_loop_locals in Hloop; [|exact Hre];
      destruct Hloop as (Ha & Hr & Hof);
      cbn [fst snd set_initial_balance l_temp_account] in Ha;
      exists acc, (l0, tr0);
      repeat split; try assumption; congruence
  end.
Qed.

(** C3, as the claim states it, fails: nothing in the loop compares the
    account it generates with the one before.  Here the faucet answers 500
    with a body that holds no marker (UnknownFailure) and the entropy source
    repeats itself: the first cycle ends without asking for reuse, the
    second draws a key and derives its account from it, and that account
    has the address of the first. *)
Lemma next_cycle_same_address_counterexample :
  let s1 := snd (cycle_body repeating_entropy 5 "0xr" (initial_locals, [])) in
  fst (cycle_body repeating_entropy 5 "0xr" (initial_locals, [])) = Ret tt /\
  last_outcome (fst s1) = UnknownFailure /\
  l_reuse (fst s1) = false /\
  exists acc s2,
    select_account repeating_entropy (next_cycle_start s1) = (Ret acc, s2) /\
    io (snd s2) = EvUrandom 32 :: io (snd s1) /\
    l_temp_account (fst s2) = Some acc /\
    temp_address (fst s2) = temp_address (fst s1).
Proof.
  cbv zeta. split; [vm_compute; reflexivity|].
  split; [vm_compute; reflexivity|].
  split; [vm_compute; reflexivity|].
  eexists. eexists. split; [vm_compute; reflexivity|].
  split; [vm_compute; reflexivity|].
  split; vm_compute; reflexivity.
Qed.

(** C3, amended.  Take a cycle that runs to its end, and let its outcome be
    that of its last faucet attempt.  The outcome is then one of the seven
    that end a cycle.  After MaxRetriesExceeded, TransactionReplaced,
    ReplacementUnderpriced or TemporarilyForbidden the next cycle starts on
    the same account and draws no key.  After Success, UnknownFailure or
    RateLimited the next cycle draws one key from the entropy source,
    derives the address from it and makes the two its account; no
    comparison with the previous account is made, so the new address
    differs from the previous one exactly when the address derived from
    the key drawn does. *)
Theorem next_cycle_reuses_or_draws_key
  (E : env) (fuel : nat) (recipient : address) (s s1 : bot_state) :
  cycle_body E fuel recipient s = (Ret tt, s1) ->
  let o := last_outcome (fst s1) in
  exists acc,
    (exists s0, select_account E (next_cycle_start s) = (Ret acc, s0)) /\
    l_temp_account (fst s1) = Some acc /\
    (reuse_outcome o = true \/ fresh_outcome o = true) /\
    (reuse_outcome o = true ->
     exists s2,
       select_account E (next_cycle_start s1) = (Ret acc, s2) /\
       l_temp_account (fst s2) = Some acc /\
       io (snd s2) = io (snd s1)) /\
    (fresh_outcome o = true ->
     forall k a,
       env_urandom E (calls ChUrandom (snd s1)) = Val k ->
       from_key E k = Some a ->
       exists s2,
         select_account E (next_cycle_start s1)
         = (Ret (mkAccount k a), s2) /\
         l_temp_account (fst s2) = Some (mkAccount k a) /\
         io (snd s2) = EvUrandom 32 :: io (snd s1) /\
         (temp_address (fst s2) <> temp_address (fst s1) <->
          a <> acct_address acc)).
Proof.
  intros H o.
  destruct (cycle_body_locals E fuel recipient s s1 H)
    as (acc & s0 & Hsel & Hacc & Hre & Hof).
  fold o in Hre, Hof.
  exists acc. split; [exists s0; exact Hsel|]. split; [exact Hacc|].
  split; [apply orb_true_iff; exact Hof|].
  destruct s1 as [l1 tr1]. cbn [fst snd] in *. unfold next_cycle_start.
  cbn [fst snd]. split.
  - intros Ho. rewrite Ho in Hre.
    eexists. split; [apply select_account_reuse; assumption|].
    cbn [fst snd]. split; [exact Hacc|reflexivity].
  - intros Ho k a Hu Hk.
    assert (Hr : l_reuse l1 = false).
    { rewrite Hre. destruct o; try discriminate Ho; reflexivity. }
    eexists. split; [apply select_account_fresh; assumption|].
    cbn [fst snd]. split; [reflexivity|]. split; [reflexivity|].
    unfold temp_address. cbn. rewrite Hacc. cbn.
    split; intros Hne Heq; apply Hne; congruence.
Qed.

(** After a connection error that used up the retries the second cycle
    keeps account "a"; after a rate limit it draws key "b" and moves to the
    address derived from it. *)
Lemma next_cycle_reuses_or_draws_key_witness :
  (exists s2,
      select_account unreachable_faucet
        (next_cycle_start
           (snd (cycle_body unreachable_faucet 5 "0xr" (initial_locals, []))))
      = (Ret (mkAccount "a" "0xa"), s2) /\
      l_temp_account (fst s2) = Some (mkAccount "a" "0xa")) /\
  (exists s2,
      select_account rate_limited
        (next_cycle_start
           (snd (cycle_body rate_limited 5 "0xr" (initial_locals, []))))
      = (Ret (mkAccount "b" "0xb"), s2) /\
      temp_address (fst s2) = Some "0xb" /\
      temp_address (fst s2)
      <> temp_address
           (fst (snd (cycle_body rate_limited 5 "0xr" (initial_locals, []))))).
Proof.
  split.
  - destruct (next_cycle_reuses_or_draws_key unreachable_faucet 5 "0xr"
                (initial_locals, [])
                (snd (cycle_body unreachable_faucet 5 "0xr"
                        (initial_locals, [])))
                ltac:(vm_compute; reflexivity))
      as (acc & _ & Hacc & _ & Hreuse & _).
    vm_compute in Hacc. inversion Hacc; subst acc.
    destruct (Hreuse ltac:(vm_compute; reflexivity)) as (s2 & Hs & Ha & _).
    exists s2. split; [exact Hs|exact Ha].
  - destruct (next_cycle_reuses_or_draws_key rate_limited 5 "0xr"
                (initial_locals, [])
                (snd (cycle_body rate_limited 5 "0xr" (initial_locals, [])))
                ltac:(vm_compute; reflexivity))
      as (acc & _ & Hacc & _ & _ & Hfresh).
    vm_compute in Hacc. inversion Hacc; subst acc.
    destruct (Hfresh ltac:(vm_compute; reflexivity) "b" "0xb"
                ltac:(vm_compute; reflexivity) ltac:(vm_compute; reflexivity))
      as (s2 & Hs & Ha & _ & Hne).
    exists s2. split; [exact Hs|]. split.
    + unfold temp_address. rewrite Ha. reflexivity.
    + apply Hne. cbn. discriminate.
Defined.

(** ** Run contracts *)

Lemma interrupt_failure (E : env) (e : exn) : interrupt E e -> failure E e.
Proof. intros H. right. exact H. Qed.

Lemma failure_not_Exception (E : env) (e : exn) :
  failure E e -> is_Exception e = false -> interrupt E e.
Proof. intros [H|H] Hx; [congruence|exact H]. Qed.

Section Contracts.

Variable E : env.
Variable recipient : address.

Let Q := pays recipient.

Lemma sound_weaken {S A : Type} (view : S -> trace) (P P' : exn -> Prop)
  (m : M S A) :
  (forall e, P e -> P' e) -> sound view Q P m -> sound view Q P' m.
Proof.
  intros HP Hm s r s' H. destruct (Hm s r s' H) as (Hn & Hr).
  split; [exact Hn|]. intros e He. apply HP, Hr, He.
Qed.

Lemma sound_ret {S A : Type} (view : S -> trace) (P : exn -> Prop) (a : A) :
  sound view Q P (@ret S A a).
Proof.
  intros s r s' H. inversion H; subst. split.
  - exists []. split; [reflexivity|constructor].
  - intros e He. discriminate He.
Qed.

Lemma sound_out_of_fuel {S A : Type} (view : S -> trace) (P : exn -> Prop) :
  sound view Q P (fun s : S => (@OutOfFuel A, s)).
Proof.
  intros s r s' H. inversion H; subst. split.
  - exists []. split; [reflexivity|constructor].
  - intros e He. discriminate He.
Qed.

Lemma sound_raise {S A : Type} (view : S -> trace) (P : exn -> Prop)
  (e : exn) :
  P e -> sound view Q P (@raise S A e).
Proof.
  intros HP s r s' H. inversion H; subst. split.
  - exists []. split; [reflexivity|constructor].
  - intros e0 He. inversion He; subst. exact HP.
Qed.

Lemma sound_bind {S A B : Type} (view : S -> trace) (P : exn -> Prop)
  (m : M S A) (k : A -> M S B) :
  sound view Q P m -> (forall a, sound view Q P (k a)) ->
  sound view Q P (bind m k).
Proof.
  intros Hm Hk s r s' H. unfold bind in H.
  destruct (m s) as [[a|e|] s1] eqn:Hms.
  - destruct (Hm s _ _ Hms) as ((n1 & Hv1 & Hq1) & _).
    destruct (Hk a s1 r s' H) as ((n2 & Hv2 & Hq2) & Hr). split.
    + exists (n2 ++ n1)%list. split.
      * rewrite Hv2, Hv1. apply app_assoc.
      * apply Forall_app. split; assumption.
    + exact Hr.
  - inversion H; subst. destruct (Hm s _ _ Hms) as (Hn & Hr). split.
    + exact Hn.
    + intros e0 He. inversion He; subst. apply Hr. reflexivity.
  - inversion H; subst. destruct (Hm s _ _ Hms) as (Hn & _). split.
    + exact Hn.
    + intros e He. discriminate He.
Qed.

Lemma sound_try {S A : Type} (view : S -> trace) (m : M S A)
  (h : exn -> M S A) :
  sound view Q (failure E) m ->
  (forall e, sound view Q (interrupt E) (h e)) ->
  sound view Q (interrupt E) (try_except_Exception m h).
Proof.
  intros Hm Hh s r s' H. unfold try_except_Exception in H.
  destruct (m s) as [[a|e|] s1] eqn:Hms.
  - inversion H; subst. destruct (Hm s _ _ Hms) as (Hn & _). split.
    + exact Hn.
    + intros e He. discriminate He.
  - destruct (Hm s _ _ Hms) as ((n1 & Hv1 & Hq1) & Hr).
    destruct (is_Exception e) eqn:Hx.
    + destruct (Hh e s1 r s' H) as ((n2 & Hv2 & Hq2) & Hr2). split.
      * exists (n2 ++ n1)%list. split.
        -- rewrite Hv2, Hv1. apply app_assoc.
        -- apply Forall_app. split; assumption.
      * exact Hr2.
    + inversion H; subst. split.
      * exists n1. split; assumption.
      * intros e0 He. inversion He; subst.
        apply failure_not_Exception; [apply Hr; reflexivity|exact Hx].
  - inversion H; subst. destruct (Hm s _ _ Hms) as (Hn & _). split.
    + exact Hn.
    + intros e He. discriminate He.
Qed.

Lemma sound_lift {A : Type} (P : exn -> Prop) (m : M trace A) :
  sound whole Q P m -> sound (@snd locals trace) Q P (lift m).
Proof.
  intros Hm s r s' H. unfold lift in H.
  destruct (m (snd s)) as [r1 tr1] eqn:Hms. inversion H; subst.
  apply (Hm (snd s) r tr1 Hms).
Qed.

Lemma sound_get_locals (P : exn -> Prop) :
  sound (@snd locals trace) Q P get_locals.
Proof.
  intros s r s' H. inversion H; subst. split.
  - exists []. split; [reflexivity|constructor].
  - intros e He. discriminate He.
Qed.

Lemma sound_modify (P : exn -> Prop) (f : locals -> locals) :
  sound (@snd locals trace) Q P (modify f).
Proof.
  intros s r s' H. inversion H; subst. split.
  - exists []. split; [reflexivity|constructor].
  - intros e He. discriminate He.
Qed.

(** A primitive that adds one event and answers from a feed. *)
Lemma sound_call {A : Type} (ev : event) (f : trace -> reply A) :
  Q ev ->
  (forall tr, f tr = Exc KeyboardInterrupt -> ~ quiet E) ->
  sound whole Q (failure E) (fun tr => (answer (f tr), ev :: tr)).
Proof.
  intros Hq Hf tr r tr' H. inversion H; subst. split.
  - exists [ev]. split; [reflexivity|]. constructor; [exact Hq|constructor].
  - intros e He. unfold answer in He.
    destruct (f tr) as [a|e1] eqn:Hft; [discriminate He|].
    inversion He; subst.
    destruct e; try (left; reflexivity).
    right. split; [reflexivity|]. apply (Hf tr Hft).
Qed.

Lemma sound_print (P : exn -> Prop) (m : log) : sound whole Q P (print m).
Proof.
  intros tr r tr' H. inversion H; subst. split.
  - exists [EvPrint m]. split; [reflexivity|].
    constructor; [exact I|constructor].
  - intros e He. discriminate He.
Qed.

Lemma sound_sleep (secs : Z) : sound whole Q (interrupt E) (sleep E secs).
Proof.
  intros tr r tr' H. unfold sleep in H. inversion H; subst. split.
  - exists [EvSleep secs]. split; [reflexivity|].
    constructor; [exact I|constructor].
  - intros e He.
    destruct (env_sleep E (calls ChSleep tr)) eqn:Hs; [|discriminate He].
    inversion He; subst. split; [reflexivity|].
    intros Hq. rewrite (q_sleep E Hq) in Hs. discriminate Hs.
Qed.

Lemma sound_time_time (P : exn -> Prop) : sound whole Q P (time_time E).
Proof.
  intros tr r tr' H. inversion H; subst. split.
  - exists [EvTime]. split; [reflexivity|].
    constructor; [exact I|constructor].
  - intros e He. discriminate He.
Qed.

Lemma sound_urandom_hex : sound whole Q (failure E) (urandom_hex E).
Proof.
  apply (sound_call (EvUrandom 32)
           (fun tr => env_urandom E (calls ChUrandom tr))); [exact I|].
  intros tr H Hq. exact (q_urandom E Hq _ H).
Qed.

Lemma sound_eth_get_balance (a : address) :
  sound whole Q (failure E) (eth_get_balance E a).
Proof.
  apply (sound_call (EvGetBalance a)
           (fun tr => env_get_balance E (calls ChBalance tr) a)); [exact I|].
  intros tr H Hq. exact (q_get_balance E Hq _ _ H).
Qed.

Lemma sound_eth_get_transaction_count (a : address) :
  sound whole Q (failure E) (eth_get_transaction_count E a).
Proof.
  apply (sound_call (EvGetTransactionCount a)
           (fun tr => env_get_transaction_count E (calls ChNonce tr) a));
    [exact I|].
  intros tr H Hq. exact (q_get_transaction_count E Hq _ _ H).
Qed.

Lemma sound_eth_gas_price : sound whole Q (failure E) (eth_gas_price E).
Proof.
  apply (sound_call EvGasPrice
           (fun tr => env_gas_price E (calls ChGasPrice tr))); [exact I|].
  intros tr H Hq. exact (q_gas_price E Hq _ H).
Qed.

Lemma sound_sign_transaction (tx : transaction) (key : privkey) :
  tx_to tx = recipient -> tx_gas tx = 21000 -> 0 < tx_value tx ->
  sound whole Q (failure E) (sign_transaction E tx key).
Proof.
  intros H1 H2 H3.
  apply (sound_call (EvSignTransaction tx key)
           (fun tr => env_sign_transaction E (calls ChSign tr) tx key)).
  - repeat split; assumption.
  - intros tr H Hq. exact (q_sign_transaction E Hq _ _ _ H).
Qed.

Lemma sound_send_raw_transaction (raw : bytes) :
  sound whole Q (failure E) (send_raw_transaction E raw).
Proof.
  apply (sound_call (EvSendRawTransaction raw)
           (fun tr => env_send_raw_transaction E (calls ChSend tr) raw));
    [exact I|].
  intros tr H Hq. exact (q_send_raw_transaction E Hq _ _ H).
Qed.

Lemma sound_wait_for_transaction_receipt (h : bytes) (t : Z) :
  sound whole Q (failure E) (wait_for_transaction_receipt E h t).
Proof.
  apply (sound_call (EvWaitForReceipt h t)
           (fun tr => env_wait_for_receipt E (calls ChReceipt tr) h));
    [exact I|].
  intros tr H Hq. exact (q_wait_for_receipt E Hq _ _ H).
Qed.

Lemma sound_tor_newnym : sound whole Q (failure E) (tor_newnym E).
Proof.
  apply (sound_call EvTorNewnym
           (fun tr => env_tor_newnym E (calls ChTor tr))); [exact I|].
  intros tr H Hq. exact (q_tor_newnym E Hq _ H).
Qed.

Lemma sound_requests_post (a : address) :
  sound whole Q (failure E) (requests_post E a).
Proof.
  apply (sound_call (EvPost a)
           (fun tr => env_post E (calls ChPost tr) a)); [exact I|].
  intros tr H Hq. exact (q_post E Hq _ _ H).
Qed.

Lemma sound_w3_from_wei (w : Z) : sound whole Q (failure E) (w3_from_wei E w).
Proof.
  intros tr r tr' H. unfold w3_from_wei in H. inversion H; subst. split.
  - exists []. split; [reflexivity|constructor].
  - intros e He. destruct (from_wei E w); inversion He. left. reflexivity.
Qed.

Lemma sound_account_from_key (k : privkey) :
  sound whole Q (failure E) (account_from_key E k).
Proof.
  intros tr r tr' H. unfold account_from_key in H. inversion H; subst. split.
  - exists []. split; [reflexivity|constructor].
  - intros e He. destruct (from_key E k); inversion He. left. reflexivity.
Qed.

End Contracts.

Create HintDb sound_db.

#[local] Hint Resolve sound_ret sound_out_of_fuel sound_print sound_time_time
  sound_get_locals sound_modify sound_sleep sound_urandom_hex
  sound_eth_get_balance sound_eth_get_transaction_count sound_eth_gas_price
  sound_send_raw_transaction sound_wait_for_transaction_receipt
  sound_tor_newnym sound_requests_post sound_w3_from_wei
  sound_account_from_key : sound_db.

(** Leaves of a contract proof: a primitive or a method already dealt with,
    at its own level or weakened from [interrupt] to [failure]. *)
Ltac sound_leaf :=
  first
    [ solve [auto 1 with sound_db]
    | assumption
    | solve [eapply sound_weaken;
             [apply interrupt_failure | auto 1 with sound_db]] ].

Ltac sound_go :=
  repeat first
    [ sound_leaf
    | apply sound_bind; [|intros]
    | apply sound_try; [|intros]
    | apply sound_lift
    | match goal with
      | |- sound _ _ _ (if ?b then _ else _) => destruct b eqn:?
      | |- sound _ _ _ (match ?x with _ => _ end) => destruct x eqn:?
      end ].

Lemma sound_get_balance (E : env) (recipient a : address) :
  sound whole (pays recipient) (interrupt E) (get_balance E a).
Proof. unfold get_balance. sound_go. Qed.

#[local] Hint Resolve sound_get_balance : sound_db.

Lemma sound_transfer_funds (E : env) (recipient : address) (key : privkey)
  (from_address : address) (amount_eth : Q) :
  sound whole (pays recipient) (interrupt E)
    (transfer_funds E key from_address recipient amount_eth).
Proof.
  unfold transfer_funds. cbv zeta. sound_go.
  apply sound_sign_transaction; cbn [tx_to tx_gas tx_value];
    try reflexivity.
  match goal with
  | H : (_ <=? 0) = false |- _ => apply Z.leb_gt in H; exact H
  end.
Qed.

#[local] Hint Resolve sound_transfer_funds : sound_db.

Lemma sound_change_tor_identity_loop (E : env) (recipient : address)
  (max_attempts : Z) (attempts : list Z) :
  sound whole (pays recipient) (interrupt E)
    (change_tor_identity_loop E max_attempts attempts).
Proof.
  induction attempts as [|attempt rest IH]; cbn [change_tor_identity_loop];
    sound_go.
Qed.

Lemma sound_change_tor_identity (E : env) (recipient : address) :
  sound whole (pays recipient) (interrupt E) (change_tor_identity E).
Proof. apply sound_change_tor_identity_loop. Qed.

#[local] Hint Resolve sound_change_tor_identity : sound_db.

Lemma sound_request_faucet_funds_try (E : env) (recipient a : address) :
  sound whole (pays recipient) (failure E) (request_faucet_funds_try E a).
Proof. unfold request_faucet_funds_try. sound_go. Qed.

Lemma sound_request_faucet_funds (E : env) (recipient a : address) :
  sound whole (pays recipient) (interrupt E) (request_faucet_funds E a).
Proof.
  intros tr r tr' H. unfold request_faucet_funds in H.
  destruct (request_faucet_funds_try E a tr) as [r1 tr1] eqn:Ht.
  destruct (sound_request_faucet_funds_try E recipient a tr r1 tr1 Ht)
    as ((n1 & Hv1 & Hq1) & Hr1).
  unfold whole in *.
  assert (Hp : forall m, Forall (pays recipient) (EvPrint m :: n1)).
  { intros m. constructor; [exact I|exact Hq1]. }
  destruct r1 as [x|e|].
  - inversion H; subst. split; [exists n1; split; [reflexivity|exact Hq1]|].
    intros e He. discriminate He.
  - destruct e as [| |msg|msg].
    + inversion H; subst. split; [exists n1; split; [reflexivity|exact Hq1]|].
      intros e He. inversion He; subst.
      apply (failure_not_Exception E); [apply Hr1; reflexivity|reflexivity].
    + inversion H; subst. split; [eexists (_ :: n1); split;
                                  [reflexivity|apply Hp]|].
      intros e He. discriminate He.
    + destruct (contains "Connection reset by peer" msg);
        [|destruct (contains "Max retries exceeded with url" msg)];
        inversion H; subst;
        (split; [eexists (_ :: n1); split; [reflexivity|apply Hp]|];
         intros e He; discriminate He).
    + inversion H; subst. split; [eexists (_ :: n1); split;
                                  [reflexivity|apply Hp]|].
      intros e He. discriminate He.
  - inversion H; subst. split; [exists n1; split; [reflexivity|exact Hq1]|].
    intros e He. discriminate He.
Qed.

#[local] Hint Resolve sound_request_faucet_funds : sound_db.

Lemma sound_transfer_retry_loop (E : env) (recipient : address)
  (key : privkey) (a : address) (init cur : Q) :
  forall (n : nat) (rc : Z),
    sound whole (pays recipient) (interrupt E)
      (transfer_retry_loop E n key a recipient init cur rc).
Proof.
  induction n as [|n IH]; intros rc; cbn [transfer_retry_loop].
  - apply sound_out_of_fuel.
  - cbv zeta. sound_go; apply IH.
Qed.

#[local] Hint Resolve sound_transfer_retry_loop : sound_db.

Lemma sound_poll_balance (E : env) (recipient a : address) (init : Q)
  (N : Z) :
  forall (attempts : list Z) (cur : Q),
    sound whole (pays recipient) (interrupt E)
      (poll_balance E a init N attempts cur).
Proof.
  induction attempts as [|i rest IH]; intros cur; cbn [poll_balance];
    sound_go; apply IH.
Qed.

#[local] Hint Resolve sound_poll_balance : sound_db.

Lemma sound_check_balance_and_transfer (E : env) (fuel : nat)
  (recipient : address) (key : privkey) (a : address) (init : Q) (N : Z) :
  sound whole (pays recipient) (interrupt E)
    (check_balance_and_transfer E fuel key a recipient init N).
Proof. unfold check_balance_and_transfer. sound_go. Qed.

#[local] Hint Resolve sound_check_balance_and_transfer : sound_db.

Lemma sound_wait_loop (E : env) (fuel : nat) (recipient : address)
  (key : privkey) (a : address) (init timeout start_time : Q) :
  forall n : nat,
    sound whole (pays recipient) (interrupt E)
      (wait_loop E fuel n key a recipient init timeout start_time).
Proof.
  induction n as [|n IH]; cbn [wait_loop].
  - apply sound_out_of_fuel.
  - sound_go.
Qed.

#[local] Hint Resolve sound_wait_loop : sound_db.

Lemma sound_wait_for_funds_and_transfer (E : env) (fuel : nat)
  (recipient : address) (key : privkey) (a : address) (init timeout : Q) :
  sound whole (pays recipient) (interrupt E)
    (wait_for_funds_and_transfer E fuel key a recipient init timeout).
Proof. unfold wait_for_funds_and_transfer. sound_go. Qed.

#[local] Hint Resolve sound_wait_for_funds_and_transfer : sound_db.

Lemma sound_generate_random_account (E : env) (recipient : address) :
  sound whole (pays recipient) (failure E) (generate_random_account E).
Proof. unfold generate_random_account. sound_go. Qed.

#[local] Hint Resolve sound_generate_random_account : sound_db.

Lemma sound_select_account (E : env) (recipient : address) :
  sound (@snd locals trace) (pays recipient) (failure E) (select_account E).
Proof.
  unfold select_account. sound_go.
  apply sound_raise. left. reflexivity.
Qed.

Lemma sound_success_branch (E : env) (fuel : nat) (recipient : address)
  (acc : account) :
  sound (@snd locals trace) (pays recipient) (interrupt E)
    (success_branch E fuel acc recipient).
Proof. unfold success_branch. sound_go. Qed.

Lemma sound_advance_with_reuse (E : env) (recipient : address) (m : log) :
  sound (@snd locals trace) (pays recipient) (interrupt E)
    (advance_with_reuse E m).
Proof. unfold advance_with_reuse. sound_go. Qed.

Lemma sound_rate_limit_branch (E : env) (fuel : nat) (recipient : address)
  (acc : account) :
  sound (@snd locals trace) (pays recipient) (interrupt E)
    (rate_limit_branch E fuel acc recipient).
Proof. unfold rate_limit_branch. sound_go. Qed.

Lemma sound_retry_same_address (E : env) (recipient : address) (m : log) :
  sound (@snd locals trace) (pays recipient) (interrupt E)
    (retry_same_address E m).
Proof. unfold retry_same_address. sound_go. Qed.

Lemma sound_unknown_failure_branch (E : env) (recipient : address) :
  sound (@snd locals trace) (pays recipient) (interrupt E)
    (unknown_failure_branch E).
Proof. unfold unknown_failure_branch. sound_go. Qed.

#[local] Hint Resolve sound_select_account sound_success_branch
  sound_advance_with_reuse sound_rate_limit_branch sound_retry_same_address
  sound_unknown_failure_branch : sound_db.

Lemma sound_failure_branch (E : env) (fuel : nat) (recipient : address)
  (acc : account) (body : bytes) :
  sound (@snd locals trace) (pays recipient) (interrupt E)
    (failure_branch E fuel acc recipient body).
Proof. unfold failure_branch. sound_go. Qed.

#[local] Hint Resolve sound_failure_branch : sound_db.

Lemma sound_faucet_attempt (E : env) (fuel : nat) (recipient : address)
  (acc : account) :
  sound (@snd locals trace) (pays recipient) (interrupt E)
    (faucet_attempt E fuel acc recipient).
Proof. unfold faucet_attempt. sound_go. Qed.

#[local] Hint Resolve sound_faucet_attempt : sound_db.

Lemma sound_faucet_loop (E : env) (fuel : nat) (recipient : address)
  (acc : account) :
  forall n : nat,
    sound (@snd locals trace) (pays recipient) (interrupt E)
      (faucet_loop E fuel n acc recipient).
Proof.
  induction n as [|n IH]; cbn [faucet_loop].
  - apply sound_out_of_fuel.
  - sound_go.
Qed.

#[local] Hint Resolve sound_faucet_loop : sound_db.

Lemma sound_cycle_body (E : env) (fuel : nat) (recipient : address) :
  sound (@snd locals trace) (pays recipient) (failure E)
    (cycle_body E fuel recipient).
Proof. unfold cycle_body. sound_go. Qed.

Lemma sound_run_bot_iteration (E : env) (fuel : nat) (recipient : address) :
  sound (@snd locals trace) (pays recipient) (interrupt E)
    (run_bot_iteration E fuel recipient).
Proof.
  intros s r s' H. unfold run_bot_iteration in H.
  destruct (cycle_body E fuel recipient s) as [r1 s1] eqn:Hc.
  destruct (sound_cycle_body E fuel recipient s r1 s1 Hc)
    as ((n1 & Hv1 & Hq1) & Hr1).
  assert (Hh : forall e : exn,
             sound (@snd locals trace) (pays recipient) (interrupt E)
               (l <- get_locals ;;
                lift (print (LogUnexpected (l_cycle l) e)) ;;
                lift (print (LogRetrying request_delay)) ;;
                lift (sleep E request_delay) ;;
                ret Continue)).
  { intros e. sound_go. }
  assert (Hs : sound (@snd locals trace) (pays recipient) (interrupt E)
                 (lift (print LogStopped) ;; ret Break)).
  { sound_go. }
  destruct r1 as [x|e|].
  - inversion H; subst. split; [exists n1; split; assumption|].
    intros e He. discriminate He.
  - assert (Hrun : exists m,
               sound (@snd locals trace) (pays recipient) (interrupt E) m /\
               m s1 = (r, s')).
    { destruct e; eexists; (split; [|exact H]);
        first [exact Hs | apply Hh]. }
    destruct Hrun as (m & Hm & Hms).
    destruct (Hm s1 r s' Hms) as ((n2 & Hv2 & Hq2) & Hr2). split.
    + exists (n2 ++ n1)%list. split.
      * rewrite Hv2, Hv1. apply app_assoc.
      * apply Forall_app. split; assumption.
    + exact Hr2.
  - inversion H; subst. split; [exists n1; split; assumption|].
    intros e He. discriminate He.
Qed.

#[local] Hint Resolve sound_run_bot_iteration : sound_db.

Lemma sound_run_bot_loop (E : env) (fuel : nat) (recipient : address) :
  forall n : nat,
    sound (@snd locals trace) (pays recipient) (interrupt E)
      (run_bot_loop E fuel n recipient).
Proof.
  induction n as [|n IH]; cbn [run_bot_loop].
  - apply sound_out_of_fuel.
  - sound_go.
Qed.

Lemma sound_run_bot (E : env) (fuel : nat) (recipient : address) :
  sound whole (pays recipient) (interrupt E) (run_bot E fuel recipient).
Proof.
  intros tr r tr' H. unfold run_bot in H.
  destruct (run_bot_loop E fuel fuel recipient
              (initial_locals,
               EvPrint LogSeparator :: EvPrint (LogRecipient recipient)
                 :: EvPrint LogStart :: tr)) as [r1 s1] eqn:Hl.
  inversion H; subst.
  destruct (sound_run_bot_loop E fuel recipient fuel _ _ _ Hl)
    as ((n1 & Hv1 & Hq1) & Hr1).
  cbn [snd] in Hv1. split.
  - exists (n1 ++ [EvPrint LogSeparator; EvPrint (LogRecipient recipient);
                   EvPrint LogStart])%list.
    split.
    + unfold whole. rewrite Hv1, <- app_assoc. reflexivity.
    + apply Forall_app. split; [exact Hq1|].
      repeat constructor.
  - exact Hr1.
Qed.

(** ** What the methods let through, and whom the bot pays *)

(** X1.  None of the methods that wrap their body in [except Exception]
    lets an exception out: what leaves [transfer_funds],
    [change_tor_identity], [request_faucet_funds],
    [check_balance_and_transfer], [wait_for_funds_and_transfer] or
    [run_bot] is the operator interrupt, and only in an environment that
    delivers one. *)
Theorem methods_raise_only_the_interrupt
  (E : env) (fuel : nat) (key : privkey) (a recipient : address)
  (amount init timeout : Q) (N : Z) (tr : trace) (e : exn) :
  (fst (transfer_funds E key a recipient amount tr) = Raise e \/
   fst (change_tor_identity E tr) = Raise e \/
   fst (request_faucet_funds E a tr) = Raise e \/
   fst (check_balance_and_transfer E fuel key a recipient init N tr)
   = Raise e \/
   fst (wait_for_funds_and_transfer E fuel key a recipient init timeout tr)
   = Raise e \/
   fst (run_bot E fuel recipient tr) = Raise e) ->
  e = KeyboardInterrupt /\ ~ quiet E.
Proof.
  assert (Hgen : forall (A : Type) (m : M trace A),
             sound whole (pays recipient) (interrupt E) m ->
             fst (m tr) = Raise e -> e = KeyboardInterrupt /\ ~ quiet E).
  { intros A m Hm Hr. destruct (m tr) as [r tr'] eqn:Hrun.
    cbn [fst] in Hr. subst r.
    apply (proj2 (Hm tr _ tr' Hrun) e). reflexivity. }
  intros [H|[H|[H|[H|[H|H]]]]]; revert H; apply Hgen.
  - apply sound_transfer_funds.
  - apply sound_change_tor_identity.
  - apply sound_request_faucet_funds.
  - apply sound_check_balance_and_transfer.
  - apply sound_wait_for_funds_and_transfer.
  - apply sound_run_bot.
Qed.

Lemma methods_raise_only_the_interrupt_witness :
  fst (change_tor_identity impatient []) = Raise KeyboardInterrupt /\
  ~ quiet impatient.
Proof.
  split; [reflexivity|].
  apply (methods_raise_only_the_interrupt impatient 1 "k" "0xa" "0xr"
           0%Q 0%Q 0%Q 0 [] KeyboardInterrupt).
  right. left. reflexivity.
Defined.

Lemma run_bot_iteration_quiet (E : env) (fuel : nat) (recipient : address)
  (s : bot_state) :
  quiet E ->
  (exists s', run_bot_iteration E fuel recipient s = (Ret Continue, s')) \/
  (exists s', run_bot_iteration E fuel recipient s = (OutOfFuel, s')).
Proof.
  intros Hq.
  destruct (run_bot_iteration E fuel recipient s) as [[c|e|] s'] eqn:Hi.
  - destruct c; [|left; exists s'; reflexivity].
    exfalso. unfold run_bot_iteration in Hi.
    destruct (cycle_body E fuel recipient s) as [[u|e|] s1] eqn:Hc;
      try discriminate Hi.
    destruct (proj2 (sound_cycle_body E fuel recipient s _ s1 Hc) e eq_refl)
      as [Hx|[He Hnq]].
    + destruct e; try discriminate Hx;
        unfold bind, get_locals, lift, print, emit, sleep, ret in Hi;
        cbn [fst snd] in Hi;
        destruct (env_sleep E _); discriminate Hi.
    + contradiction.
  - exfalso.
    destruct (proj2 (sound_run_bot_iteration E fuel recipient s _ s' Hi)
                e eq_refl) as [_ Hnq].
    contradiction.
  - right. exists s'. reflexivity.
Qed.

(** X2.  In an environment that never delivers the operator interrupt,
    [run_bot] neither returns nor raises, however long it is run: the
    outer loop has no other exit. *)
Theorem run_bot_runs_forever_when_quiet
  (E : env) (fuel : nat) (recipient : address) :
  quiet E ->
  (forall (n : nat) (s : bot_state),
     fst (run_bot_loop E fuel n recipient s) = OutOfFuel) /\
  (forall tr : trace, fst (run_bot E fuel recipient tr) = OutOfFuel).
Proof.
  intros Hq.
  assert (Hloop : forall (n : nat) (s : bot_state),
             fst (run_bot_loop E fuel n recipient s) = OutOfFuel).
  { induction n as [|n IH]; intros s; [reflexivity|].
    cbn [run_bot_loop]. unfold bind.
    destruct (run_bot_iteration_quiet E fuel recipient s Hq)
      as [(s' & Hi)|(s' & Hi)]; rewrite Hi.
    - apply IH.
    - reflexivity. }
  split; [exact Hloop|].
  intros tr. unfold run_bot.
  specialize (Hloop fuel
                (initial_locals,
                 EvPrint LogSeparator :: EvPrint (LogRecipient recipient)
                   :: EvPrint LogStart :: tr)).
  destruct (run_bot_loop E fuel fuel recipient _) as [r s1].
  exact Hloop.
Qed.

Lemma calm_quiet : quiet calm.
Proof. constructor; intros; cbn; first [reflexivity | discriminate]. Qed.

Lemma run_bot_runs_forever_when_quiet_witness :
  fst (run_bot calm 2 "0xr" []) = OutOfFuel.
Proof.
  apply (proj2 (run_bot_runs_forever_when_quiet calm 2 "0xr" calm_quiet)).
Defined.

(** X3.  Whatever [run_bot] does, every transaction it hands to the signer
    pays the recipient it was started with, has the gas limit 21000 and a
    positive value. *)
Theorem run_bot_pays_only_the_recipient
  (E : env) (fuel : nat) (recipient : address) (tr : trace) :
  exists new,
    snd (run_bot E fuel recipient tr) = (new ++ tr)%list /\
    forall tx key,
      In (EvSignTransaction tx key) new ->
      tx_to tx = recipient /\ tx_gas tx = 21000 /\ 0 < tx_value tx.
Proof.
  destruct (run_bot E fuel recipient tr) as [r tr'] eqn:Hrun.
  destruct (proj1 (sound_run_bot E fuel recipient tr r tr' Hrun))
    as (new & Hv & Hq).
  exists new. split; [exact Hv|].
  intros tx key Hin.
  rewrite Forall_forall in Hq. exact (Hq _ Hin).
Qed.

Lemma run_bot_pays_only_the_recipient_witness :
  In (EvSignTransaction
        {| tx_nonce := 0; tx_to := "0xr";
           tx_value := one_ether - 21000 * 1000000000;
           tx_gas := 21000; tx_gasPrice := 1000000000 |} "a")
     (snd (run_bot generous 1 "0xr" [])) /\
  0 < one_ether - 21000 * 1000000000.
Proof.
  split; [vm_compute; tauto|].
  destruct (run_bot_pays_only_the_recipient generous 1 "0xr" [])
    as (new & Hv & Hall).
  rewrite app_nil_r in Hv. subst new.
  apply (Hall {| tx_nonce := 0; tx_to := "0xr";
                 tx_value := one_ether - 21000 * 1000000000;
                 tx_gas := 21000; tx_gasPrice := 1000000000 |} "a").
  vm_compute. tauto.
Defined.

(** Case analysis on the run in the goal, innermost first. *)
Ltac goal_cases :=
  repeat (match goal with
          | |- context [match ?x with _ => _ end] =>
              lazymatch x with
              | context [match _ with _ => _ end] => fail
              | _ => destruct x eqn:?
              end
          end;
          cbv beta iota; cbn [fst snd calls on_channel]).

(** X4.  One call of [transfer_funds] signs at most one transaction, sends
    only what it has signed and waits only for what it has sent, with a
    timeout of 120; and it returns [True] only if the signer, the node and
    the receipt all answered and the receipt has status 1. *)
Theorem transfer_funds_true_means_confirmed
  (E : env) (key : privkey) (from_address to_address : address)
  (amount_eth : Q) (tr : trace) :
  let out := transfer_funds E key from_address to_address amount_eth tr in
  (transfer_events (snd out) = transfer_events tr \/
   (exists tx,
       transfer_events (snd out)
       = EvSignTransaction tx key :: transfer_events tr) \/
   (exists tx raw,
       transfer_events (snd out)
       = EvSendRawTransaction raw :: EvSignTransaction tx key
           :: transfer_events tr /\
       env_sign_transaction E (calls ChSign tr) tx key = Val raw) \/
   (exists tx raw h,
       transfer_events (snd out)
       = EvWaitForReceipt h 120 :: EvSendRawTransaction raw
           :: EvSignTransaction tx key :: transfer_events tr /\
       env_sign_transaction E (calls ChSign tr) tx key = Val raw /\
       env_send_raw_transaction E (calls ChSend tr) raw = Val h)) /\
  (fst out = Ret true ->
   exists tx raw h rc,
     transfer_events (snd out)
     = EvWaitForReceipt h 120 :: EvSendRawTransaction raw
         :: EvSignTransaction tx key :: transfer_events tr /\
     env_sign_transaction E (calls ChSign tr) tx key = Val raw /\
     env_send_raw_transaction E (calls ChSend tr) raw = Val h /\
     env_wait_for_receipt E (calls ChReceipt tr) h = Val rc /\
     rc_status rc = 1).
Proof.
  intros out. subst out.
  unfold transfer_funds, try_except_Exception, bind,
    eth_get_transaction_count, eth_gas_price, eth_get_balance, w3_from_wei,
    sign_transaction, send_raw_transaction, wait_for_transaction_receipt,
    answer, ret, print, emit.
  cbv zeta. cbn [fst snd calls on_channel].
  goal_cases;
    (split;
     [ first
         [ left; reflexivity
         | right; left; eexists; reflexivity
         | right; right; left; do 2 eexists; split;
           [reflexivity|eassumption]
         | right; right; right; do 3 eexists; split;
           [reflexivity|split; eassumption] ]
     | intros Ht; try discriminate Ht;
       do 4 eexists;
       repeat split; try reflexivity; try eassumption;
       match goal with
       | H : (_ =? 1) = true |- _ => apply Z.eqb_eq in H; exact H
       end ]).
Qed.

Lemma transfer_funds_true_means_confirmed_witness :
  exists tx raw h rc,
    transfer_events (snd (transfer_funds funded "k" "0xk" "0xr" 0%Q []))
    = [EvWaitForReceipt h 120; EvSendRawTransaction raw;
       EvSignTransaction tx "k"] /\
    env_sign_transaction funded 0 tx "k" = Val raw /\
    env_send_raw_transaction funded 0 raw = Val h /\
    env_wait_for_receipt funded 0 h = Val rc /\
    rc_status rc = 1.
Proof.
  apply (proj2 (transfer_funds_true_means_confirmed funded "k" "0xk" "0xr"
                  0%Q [])).
  reflexivity.
Defined.

(** ** Identity rotation and the faucet client *)

Lemma tor_round_fail_retry (E : env) (max_attempts attempt : Z)
  (rest : list Z) (tr : trace) (e : exn) :
  env_tor_newnym E (calls ChTor tr) = Exc e ->
  is_Exception e = true ->
  (attempt <? max_attempts - 1) = true ->
  env_sleep E (calls ChSleep tr) = false ->
  change_tor_identity_loop E max_attempts (attempt :: rest) tr
  = change_tor_identity_loop E max_attempts rest
      (EvSleep 1 :: EvPrint (LogTorRetrying 1)
         :: EvPrint (LogTorError (attempt + 1) e) :: EvTorNewnym :: tr).
Proof.
  intros Ht He Ha Hs. cbn [change_tor_identity_loop].
  unfold bind at 1. unfold try_except_Exception.
  unfold bind at 1. unfold tor_newnym at 1. rewrite Ht. cbn [answer].
  rewrite He. rewrite Ha.
  unfold bind, print, emit, sleep, ret. cbn [calls on_channel].
  rewrite Hs. reflexivity.
Qed.

Lemma tor_round_fail_last (E : env) (max_attempts attempt : Z)
  (rest : list Z) (tr : trace) (e : exn) :
  env_tor_newnym E (calls ChTor tr) = Exc e ->
  is_Exception e = true ->
  (attempt <? max_attempts - 1) = false ->
  change_tor_identity_loop E max_attempts (attempt :: rest) tr
  = change_tor_identity_loop E max_attempts rest
      (EvPrint (LogTorError (attempt + 1) e) :: EvTorNewnym :: tr).
Proof.
  intros Ht He Ha. cbn [change_tor_identity_loop].
  unfold bind at 1. unfold try_except_Exception.
  unfold bind at 1. unfold tor_newnym at 1. rewrite Ht. cbn [answer].
  rewrite He. rewrite Ha.
  unfold bind, print, emit, ret. reflexivity.
Qed.

Lemma tor_round_ok (E : env) (max_attempts attempt : Z) (rest : list Z)
  (tr : trace) :
  env_tor_newnym E (calls ChTor tr) = Val tt ->
  env_sleep E (calls ChSleep tr) = false ->
  change_tor_identity_loop E max_attempts (attempt :: rest) tr
  = (Ret true,
     EvSleep 3 :: EvPrint (LogTorChanged (attempt + 1)) :: EvTorNewnym :: tr).
Proof.
  intros Ht Hs. cbn [change_tor_identity_loop].
  unfold bind at 1. unfold try_except_Exception.
  unfold bind at 1. unfold tor_newnym at 1. rewrite Ht. cbn [answer].
  unfold bind, print, emit, sleep, ret. cbn [calls on_channel].
  rewrite Hs. reflexivity.
Qed.

(** Side conditions of the three lemmas above. *)
Ltac tor_side :=
  try solve [cbn [calls on_channel]; first [assumption | reflexivity]].

(** X5.  [change_tor_identity] tries the control port at most three times.
    If all three attempts fail it returns [False] after exactly three calls,
    with a pause of [request_delay] after the first and the second and none
    after the third.  If attempt k + 1 is the first to succeed it returns
    [True] after k + 1 calls, k such pauses and a final pause of three
    seconds. *)
Theorem change_tor_identity_three_attempts (E : env) (tr : trace) :
  let out := change_tor_identity E tr in
  ((forall i, (i < 3)%nat ->
      exists e, env_tor_newnym E (calls ChTor tr + i) = Exc e /\
                is_Exception e = true) ->
   (forall i, (i < 2)%nat -> env_sleep E (calls ChSleep tr + i) = false) ->
   fst out = Ret false /\
   io (snd out) = EvTorNewnym :: (tor_retries 2 ++ io tr)%list) /\
  (forall k : nat,
     (k < 3)%nat ->
     (forall i, (i < k)%nat ->
        exists e, env_tor_newnym E (calls ChTor tr + i) = Exc e /\
                  is_Exception e = true) ->
     env_tor_newnym E (calls ChTor tr + k) = Val tt ->
     (forall i, (i <= k)%nat -> env_sleep E (calls ChSleep tr + i) = false) ->
     fst out = Ret true /\
     io (snd out)
     = EvSleep 3 :: EvTorNewnym :: (tor_retries k ++ io tr)%list).
Proof.
  intros out. subst out. unfold change_tor_identity. cbv zeta.
  change (range 3) with [0; 1; 2].
  assert (E1 : forall c, (calls c tr + 1)%nat = S (calls c tr)) by (intros; lia).
  assert (E2 : forall c, (calls c tr + 2)%nat = S (S (calls c tr)))
    by (intros; lia).
  split.
  - intros Hf Hs.
    destruct (Hf 0%nat ltac:(lia)) as (e0 & H0 & X0).
    destruct (Hf 1%nat ltac:(lia)) as (e1 & H1 & X1).
    destruct (Hf 2%nat ltac:(lia)) as (e2 & H2 & X2).
    pose proof (Hs 0%nat ltac:(lia)) as S0.
    pose proof (Hs 1%nat ltac:(lia)) as S1.
    rewrite Nat.add_0_r in H0, S0. rewrite E1 in H1, S1. rewrite E2 in H2.
    rewrite tor_round_fail_retry with (e := e0); tor_side.
    rewrite tor_round_fail_retry with (e := e1); tor_side.
    rewrite tor_round_fail_last with (e := e2); tor_side.
    split; reflexivity.
  - intros k Hk Hf Ht Hs.
    destruct k as [|[|[|k]]]; [| | |lia].
    + pose proof (Hs 0%nat ltac:(lia)) as S0.
      rewrite Nat.add_0_r in Ht, S0.
      rewrite tor_round_ok; tor_side. split; reflexivity.
    + destruct (Hf 0%nat ltac:(lia)) as (e0 & H0 & X0).
      pose proof (Hs 0%nat ltac:(lia)) as S0.
      pose proof (Hs 1%nat ltac:(lia)) as S1.
      rewrite Nat.add_0_r in H0, S0. rewrite E1 in Ht, S1.
      rewrite tor_round_fail_retry with (e := e0); tor_side.
      rewrite tor_round_ok; tor_side. split; reflexivity.
    + destruct (Hf 0%nat ltac:(lia)) as (e0 & H0 & X0).
      destruct (Hf 1%nat ltac:(lia)) as (e1 & H1 & X1).
      pose proof (Hs 0%nat ltac:(lia)) as S0.
      pose proof (Hs 1%nat ltac:(lia)) as S1.
      pose proof (Hs 2%nat ltac:(lia)) as S2.
      rewrite Nat.add_0_r in H0, S0. rewrite E1 in H1, S1.
      rewrite E2 in Ht, S2.
      rewrite tor_round_fail_retry with (e := e0); tor_side.
      rewrite tor_round_fail_retry with (e := e1); tor_side.
      rewrite tor_round_ok; tor_side. split; reflexivity.
Qed.

Lemma change_tor_identity_three_attempts_witness :
  (fst (change_tor_identity tor_down []) = Ret false /\
   io (snd (change_tor_identity tor_down []))
   = [EvTorNewnym; EvSleep 1; EvTorNewnym; EvSleep 1; EvTorNewnym]) /\
  (fst (change_tor_identity tor_flaky []) = Ret true /\
   io (snd (change_tor_identity tor_flaky []))
   = [EvSleep 3; EvTorNewnym; EvSleep 1; EvTorNewnym; EvSleep 1;
      EvTorNewnym]).
Proof.
  split.
  - apply (proj1 (change_tor_identity_three_attempts tor_down [])).
    + intros i _. exists (OtherException "SocketError").
      split; reflexivity.
    + intros i _. reflexivity.
  - apply (proj2 (change_tor_identity_three_attempts tor_flaky []) 2%nat).
    + lia.
    + intros i Hi. exists (OtherException "SocketError").
      destruct i as [|[|i]]; [| |lia]; split; reflexivity.
    + reflexivity.
    + intros i _. reflexivity.
Defined.

(** X6.  Whatever became of the identity change, [request_faucet_funds]
    posts once; when the faucet answers, the flag returned is [True]
    exactly for status 200 and the body is the content received. *)
Theorem request_faucet_funds_reports_status
  (E : env) (a : address) (tr tr1 : trace) (changed : bool)
  (status_code : Z) (content : bytes) :
  change_tor_identity E (EvPrint (LogPreparingIp a) :: tr)
  = (Ret changed, tr1) ->
  env_post E (calls ChPost tr1) a = Val (status_code, content) ->
  exists tr2,
    request_faucet_funds E a tr
    = (Ret (status_code =? 200, content), tr2) /\
    io tr2 = EvPost a :: io tr1.
Proof.
  intros Hc Hp.
  unfold request_faucet_funds, request_faucet_funds_try.
  unfold bind at 1. unfold print at 1, emit.
  unfold bind at 1. rewrite Hc.
  unfold bind, requests_post, print, emit, ret, answer.
  destruct changed; cbn [negb fst snd calls on_channel]; rewrite Hp;
    destruct (status_code =? 200); eexists; split; reflexivity.
Qed.

Lemma request_faucet_funds_reports_status_witness :
  exists tr2,
    request_faucet_funds tor_down "0xa" []
    = (Ret (200 =? 200, "ok"), tr2) /\
    io tr2
    = EvPost "0xa"
        :: io (snd (change_tor_identity tor_down
                      [EvPrint (LogPreparingIp "0xa")])).
Proof.
  apply (request_faucet_funds_reports_status tor_down "0xa" []
           (snd (change_tor_identity tor_down
                   [EvPrint (LogPreparingIp "0xa")])) false 200 "ok");
    reflexivity.
Defined.

(** X7.  How the orchestrator takes a request that raised.  A read timeout
    makes it sleep [request_delay] and ask again for the same account, the
    cycle counter unchanged.  An error that is neither a timeout nor a
    connection error comes back with an empty body, takes the default
    branch and ends the cycle: the counter goes up and [reuse] stays as it
    is. *)
Theorem faucet_attempt_on_transport_error
  (E : env) (fuel : nat) (acc : account) (recipient : address)
  (l : locals) (tr tr1 : trace) :
  (request_faucet_funds_try E (acct_address acc) tr = (Raise ReadTimeout, tr1) ->
   env_sleep E (calls ChSleep tr1) = false ->
   faucet_attempt E fuel acc recipient (l, tr)
   = (Ret Continue,
      (set_response (false, "TIMEOUT") l,
       EvSleep 1 :: EvPrint (LogTimeoutRetry 1) :: EvPrint LogReadTimeout
         :: tr1))) /\
  (forall msg,
     request_faucet_funds_try E (acct_address acc) tr
     = (Raise (OtherException msg), tr1) ->
     env_sleep E (calls ChSleep tr1) = false ->
     faucet_attempt E fuel acc recipient (l, tr)
     = (Ret Break,
        (incr_cycle (set_response (false, EmptyString) l),
         EvSleep 1 :: EvPrint (LogCycleFailed (l_cycle l))
           :: EvPrint (LogFaucetError (OtherException msg)) :: tr1))).
Proof.
  split.
  - intros Ht Hs.
    unfold faucet_attempt, bind, lift, modify, request_faucet_funds.
    cbn [fst snd]. rewrite Ht.
    unfold bind, print, emit, ret. cbn [fst snd].
    rewrite failure_branch_branch_for.
    replace (classify "TIMEOUT") with Timeout by (vm_compute; reflexivity).
    cbn [branch_for].
    unfold retry_same_address, bind, lift, print, emit, sleep, ret.
    cbn [fst snd calls on_channel]. rewrite Hs. reflexivity.
  - intros msg Ht Hs.
    unfold faucet_attempt, bind, lift, modify, request_faucet_funds.
    cbn [fst snd]. rewrite Ht.
    unfold bind, print, emit, ret. cbn [fst snd].
    rewrite failure_branch_branch_for.
    replace (classify EmptyString) with UnknownFailure
      by (vm_compute; reflexivity).
    cbn [branch_for].
    unfold unknown_failure_branch, bind, lift, get_locals, modify, print,
      emit, sleep, ret.
    cbn [fst snd calls on_channel]. rewrite Hs. reflexivity.
Qed.

Lemma faucet_attempt_on_transport_error_witness :
  faucet_attempt slow_faucet 1 (mkAccount "a" "0xa") "0xr" (sample_locals, [])
  = (Ret Continue,
     (set_response (false, "TIMEOUT") sample_locals,
      EvSleep 1 :: EvPrint (LogTimeoutRetry 1) :: EvPrint LogReadTimeout
        :: snd (request_faucet_funds_try slow_faucet "0xa" []))) /\
  faucet_attempt broken_faucet 1 (mkAccount "a" "0xa") "0xr"
    (sample_locals, [])
  = (Ret Break,
     (incr_cycle (set_response (false, EmptyString) sample_locals),
      EvSleep 1 :: EvPrint (LogCycleFailed 1)
        :: EvPrint (LogFaucetError (OtherException "SSLError"))
        :: snd (request_faucet_funds_try broken_faucet "0xa" []))).
Proof.
  split.
  - apply (proj1 (faucet_attempt_on_transport_error slow_faucet 1
                    (mkAccount "a" "0xa") "0xr" sample_locals []
                    (snd (request_faucet_funds_try slow_faucet "0xa" []))));
      reflexivity.
  - apply (proj2 (faucet_attempt_on_transport_error broken_faucet 1
                    (mkAccount "a" "0xa") "0xr" sample_locals []
                    (snd (request_faucet_funds_try broken_faucet "0xa" [])))
             "SSLError");
      reflexivity.
Defined.

(** ** The retry loop on an account it cannot sweep *)

Lemma transfer_funds_fails_on_dust (E : env) (key : privkey)
  (a recipient : address) (cur : Q) (g B : Z) (tr : trace) :
  env_get_transaction_count E (calls ChNonce tr) a <> Exc KeyboardInterrupt ->
  env_gas_price E (calls ChGasPrice tr) = Val g ->
  env_get_balance E (calls ChBalance tr) a = Val B ->
  B <= 21000 * g ->
  exists tr1,
    transfer_funds E key a recipient cur tr = (Ret false, tr1) /\
    transfer_events tr1 = transfer_events tr /\
    calls ChSleep tr1 = calls ChSleep tr.
Proof.
  intros Hn Hg Hb Hle.
  unfold transfer_funds, try_except_Exception, bind,
    eth_get_transaction_count, eth_gas_price, eth_get_balance, w3_from_wei,
    answer, ret, print, emit.
  cbv zeta.
  destruct (env_get_transaction_count E (calls ChNonce tr) a) as [nonce|e].
  - cbn [calls on_channel fst snd]. rewrite Hg.
    destruct (from_wei E (21000 * g)) as [f|];
      [|eexists; repeat split; reflexivity].
    cbn [calls on_channel fst snd]. rewrite Hb.
    destruct (from_wei E B) as [b|]; [|eexists; repeat split; reflexivity].
    destruct (from_wei E (B - 21000 * g)) as [d|];
      [|eexists; repeat split; reflexivity].
    assert (Hz : (B - 21000 * g <=? 0) = true) by (apply Z.leb_le; lia).
    rewrite Hz. eexists; repeat split; reflexivity.
  - destruct e; try contradiction;
      eexists; repeat split; reflexivity.
Qed.

Lemma transfer_events_prints (pr : trace) :
  forallb is_print pr = true -> filter is_transfer_event pr = [].
Proof.
  induction pr as [|ev pr IH]; [reflexivity|].
  simpl. intros H. apply andb_prop in H. destruct H as [He Hp].
  destruct ev; try discriminate He. simpl. auto.
Qed.

Lemma retry_round_again (E : env) (n : nat) (key : privkey)
  (a recipient : address) (init cur : Q) (rc : Z) (tr tr1 tr2 : trace)
  (b : Q) :
  transfer_funds E key a recipient cur
    (EvPrint (LogAttemptTransfer (rc + 1)) :: tr) = (Ret false, tr1) ->
  env_sleep E (calls ChSleep tr1) = false ->
  get_balance E a
    (EvSleep request_delay :: EvPrint (LogTransferRetry request_delay) :: tr1)
  = (Ret b, tr2) ->
  Qleb b init = false ->
  transfer_retry_loop E (S n) key a recipient init cur rc tr
  = transfer_retry_loop E n key a recipient init cur (rc + 1) tr2.
Proof.
  intros Ht Hs Hg Hq.
  cbn [transfer_retry_loop]. cbv zeta.
  unfold bind at 1. unfold print at 1, emit.
  unfold bind at 1. rewrite Ht.
  unfold bind at 1. unfold print at 1, emit.
  unfold bind at 1. unfold sleep at 1.
  cbn [calls on_channel]. rewrite Hs.
  unfold bind at 1. rewrite Hg. rewrite Hq. reflexivity.
Qed.

(** X8.  Funds that exceed the baseline but not the fee trap the retry
    loop.  If every balance read shows the same amount B, above
    [initial_balance] once converted but with B <= 21000 * gas price, then
    (unless the operator interrupts) the loop never returns: each round
    fails to build a transaction, sleeps one second, finds the funds still
    there and goes round again. *)
Theorem transfer_retry_loop_spins_on_dust
  (E : env) (key : privkey) (a recipient : address) (init cur : Q)
  (g B : Z) (d : Q) :
  (forall n, env_sleep E n = false) ->
  (forall n, env_get_transaction_count E n a <> Exc KeyboardInterrupt) ->
  (forall n, env_gas_price E n = Val g) ->
  (forall n, env_get_balance E n a = Val B) ->
  from_wei E B = Some d ->
  (init < to_float E d)%Q ->
  B <= 21000 * g ->
  forall (n : nat) (rc : Z) (tr : trace),
    let out := transfer_retry_loop E n key a recipient init cur rc tr in
    fst out = OutOfFuel /\
    transfer_events (snd out) = transfer_events tr /\
    calls ChSleep (snd out) = (calls ChSleep tr + n)%nat.
Proof.
  intros Hs Hn Hg Hb Hd Hlt Hle.
  induction n as [|n IH]; intros rc tr.
  - cbn. repeat split. lia.
  - destruct (transfer_funds_fails_on_dust E key a recipient cur g B
                (EvPrint (LogAttemptTransfer (rc + 1)) :: tr)
                (Hn _) (Hg _) (Hb _) Hle) as (tr1 & Ht & Hev & Hsl).
    destruct (get_balance_spec E a
                (EvSleep request_delay
                   :: EvPrint (LogTransferRetry request_delay) :: tr1))
      as (pr & Hpr & Hgb).
    unfold balance_reading in Hgb. rewrite Hb, Hd in Hgb.
    apply Qleb_false in Hlt.
    cbv zeta.
    rewrite (retry_round_again E n key a recipient init cur rc tr tr1 _ _
               Ht (Hs _) Hgb Hlt).
    specialize (IH (rc + 1)
                  (pr ++ EvGetBalance a :: EvSleep request_delay
                     :: EvPrint (LogTransferRetry request_delay) :: tr1)%list).
    cbv zeta in IH. destruct IH as (I1 & I2 & I3).
    split; [exact I1|]. split.
    + rewrite I2. unfold transfer_events. rewrite filter_app.
      replace (filter is_transfer_event pr) with (@nil event).
      * cbn [app filter is_transfer_event on_channel orb].
        fold (transfer_events tr1). rewrite Hev. reflexivity.
      * symmetry. apply transfer_events_prints. exact Hpr.
    + rewrite I3. rewrite calls_app_prints by exact Hpr.
      cbn [calls on_channel]. rewrite Hsl. cbn [calls on_channel]. lia.
Qed.

Lemma transfer_retry_loop_spins_on_dust_witness :
  fst (transfer_retry_loop dust 7 "k" "0xk" "0xr" 0%Q 0%Q 0 []) = OutOfFuel /\
  transfer_events (snd (transfer_retry_loop dust 7 "k" "0xk" "0xr" 0%Q 0%Q
                          0 [])) = [] /\
  calls ChSleep (snd (transfer_retry_loop dust 7 "k" "0xk" "0xr" 0%Q 0%Q
                        0 [])) = 7%nat.
Proof.
  apply (transfer_retry_loop_spins_on_dust dust "k" "0xk" "0xr" 0%Q 0%Q
           1000000000 20000000000000
           (20000000000000 # 1000000000000000000)%Q).
  - intros n. reflexivity.
  - intros n. cbn. discriminate.
  - intros n. reflexivity.
  - intros n. reflexivity.
  - reflexivity.
  - vm_compute. reflexivity.
  - vm_compute. discriminate.
Defined.

(** X9.  A balance read that fails is a balance of 0 to the retry loop: if,
    after a failed sweep, the node cannot be read and [initial_balance] is
    not negative, the loop reports the funds gone and returns [False],
    whether or not they are. *)
Theorem transfer_retry_loop_stops_on_read_error
  (E : env) (n : nat) (key : privkey) (a recipient : address)
  (init cur : Q) (rc : Z) (tr tr1 : trace) (e : exn) :
  transfer_funds E key a recipient cur
    (EvPrint (LogAttemptTransfer (rc + 1)) :: tr) = (Ret false, tr1) ->
  env_sleep E (calls ChSleep tr1) = false ->
  env_get_balance E (calls ChBalance tr1) a = Exc e ->
  is_Exception e = true ->
  (0 <= init)%Q ->
  transfer_retry_loop E (S n) key a recipient init cur rc tr
  = (Ret false,
     EvPrint LogFundsGone :: EvPrint (LogBalanceError a e)
       :: EvGetBalance a :: EvSleep 1 :: EvPrint (LogTransferRetry 1) :: tr1).
Proof.
  intros Ht Hs Hb He Hi.
  cbn [transfer_retry_loop]. cbv zeta.
  unfold bind at 1. unfold print at 1, emit.
  unfold bind at 1. rewrite Ht.
  unfold bind at 1. unfold print at 1, emit.
  unfold bind at 1. unfold sleep at 1.
  cbn [calls on_channel]. rewrite Hs.
  unfold bind at 1.
  unfold get_balance, try_except_Exception, bind, eth_get_balance, answer.
  cbn [calls on_channel]. rewrite Hb. rewrite He.
  unfold print, emit, ret.
  apply Qleb_true in Hi. rewrite Hi. reflexivity.
Qed.

Lemma transfer_retry_loop_stops_on_read_error_witness :
  transfer_retry_loop flaky 3 "k" "0xk" "0xr" 0%Q 1%Q 0 []
  = (Ret false,
     EvPrint LogFundsGone
       :: EvPrint (LogBalanceError "0xk" (ConnectionError "node down"))
       :: EvGetBalance "0xk" :: EvSleep 1 :: EvPrint (LogTransferRetry 1)
       :: snd (transfer_funds flaky "k" "0xk" "0xr" 1%Q
                 [EvPrint (LogAttemptTransfer (0 + 1))])).
Proof.
  apply (transfer_retry_loop_stops_on_read_error flaky 2 "k" "0xk" "0xr"
           0%Q 1%Q 0 []
           (snd (transfer_funds flaky "k" "0xk" "0xr" 1%Q
                   [EvPrint (LogAttemptTransfer (0 + 1))]))
           (ConnectionError "node down"));
    first [reflexivity | vm_compute; discriminate].
Defined.

(** ** The time-bounded poller *)

Lemma Qltb_true (a b : Q) : Qltb a b = true <-> (a < b)%Q.
Proof. unfold Qltb. apply Qgtb_true. Qed.

Lemma Qltb_false (a b : Q) : Qltb a b = false <-> (b <= a)%Q.
Proof. unfold Qltb. apply Qgtb_false. Qed.

Lemma waits_snoc (a : address) (n : nat) (tr : trace) :
  (waits a n ++ EvSleep 1 :: EvGetBalance a :: EvTime :: tr)%list
  = (waits a (S n) ++ tr)%list.
Proof.
  induction n as [|n IH]; simpl; [reflexivity|].
  simpl in IH. rewrite IH. reflexivity.
Qed.

Lemma wait_loop_times_out (E : env) (fuel : nat) (key : privkey)
  (a recipient : address) (init timeout start_time : Q) :
  forall (n m : nat) (tr : trace),
    (n < m)%nat ->
    (forall i, (i < n)%nat ->
       (env_time E (calls ChTime tr + i) - start_time < timeout)%Q) ->
    (timeout <= env_time E (calls ChTime tr + n) - start_time)%Q ->
    (forall i, (i < n)%nat ->
       exists b, balance_reading E a (calls ChBalance tr + i) = Ret b /\
                 (b <= init)%Q) ->
    (forall i, (i < n)%nat -> env_sleep E (calls ChSleep tr + i) = false) ->
    exists tr',
      wait_loop E fuel m key a recipient init timeout start_time tr
      = (Ret false, tr') /\
      io tr' = EvTime :: (waits a n ++ io tr)%list.
Proof.
  induction n as [|n IH]; intros m tr Hm Ht Hend Hb Hs.
  - destruct m as [|m]; [lia|].
    rewrite Nat.add_0_r in Hend. apply Qltb_false in Hend.
    cbn [wait_loop]. unfold bind at 1. unfold time_time at 1.
    rewrite Hend.
    eexists. split; [reflexivity|]. reflexivity.
  - destruct m as [|m]; [lia|].
    pose proof (Ht O ltac:(lia)) as Ht0. rewrite Nat.add_0_r in Ht0.
    apply Qltb_true in Ht0.
    destruct (Hb O ltac:(lia)) as (b & Hr & Hle).
    pose proof (Hs O ltac:(lia)) as Hs0. rewrite Nat.add_0_r in Hs0.
    destruct (get_balance_spec E a (EvTime :: tr)) as (pr & Hpr & Hg).
    cbn [calls on_channel] in Hg. rewrite Nat.add_0_r in Hr.
    rewrite Hr in Hg. apply Qgtb_false in Hle.
    set (tr1 := (EvSleep 1 :: EvPrint (LogChecking b)
                   :: pr ++ EvGetBalance a :: EvTime :: tr)%list).
    assert (Hstep :
              wait_loop E fuel (S m) key a recipient init timeout start_time tr
              = wait_loop E fuel m key a recipient init timeout start_time
                  tr1).
    { cbn [wait_loop]. unfold bind at 1. unfold time_time at 1.
      rewrite Ht0. unfold bind at 1. rewrite Hg, Hle.
      unfold bind, print, emit, sleep.
      cbn [calls on_channel]. rewrite calls_app_prints by exact Hpr.
      cbn [calls on_channel]. rewrite Hs0. reflexivity. }
    assert (Hct : calls ChTime tr1 = S (calls ChTime tr)).
    { unfold tr1. cbn [calls on_channel].
      rewrite calls_app_prints by exact Hpr. reflexivity. }
    assert (Hcb : calls ChBalance tr1 = S (calls ChBalance tr)).
    { unfold tr1. cbn [calls on_channel].
      rewrite calls_app_prints by exact Hpr. reflexivity. }
    assert (Hcs : calls ChSleep tr1 = S (calls ChSleep tr)).
    { unfold tr1. cbn [calls on_channel].
      rewrite calls_app_prints by exact Hpr. reflexivity. }
    assert (Hio : io tr1 = EvSleep 1 :: EvGetBalance a :: EvTime :: io tr).
    { unfold tr1. unfold io at 1. cbn [filter is_print negb].
      fold (io (pr ++ EvGetBalance a :: EvTime :: tr)%list).
      rewrite io_app_prints by exact Hpr. reflexivity. }
    destruct (IH m tr1) as (tr' & Hrun & Hio').
    + lia.
    + intros i Hi. rewrite Hct.
      replace (S (calls ChTime tr) + i)%nat
        with (calls ChTime tr + S i)%nat by lia.
      apply Ht. lia.
    + rewrite Hct.
      replace (S (calls ChTime tr) + n)%nat
        with (calls ChTime tr + S n)%nat by lia.
      exact Hend.
    + intros i Hi. rewrite Hcb.
      replace (S (calls ChBalance tr) + i)%nat
        with (calls ChBalance tr + S i)%nat by lia.
      apply Hb. lia.
    + intros i Hi. rewrite Hcs.
      replace (S (calls ChSleep tr) + i)%nat
        with (calls ChSleep tr + S i)%nat by lia.
      apply Hs. lia.
    + exists tr'. split.
      * rewrite Hstep. exact Hrun.
      * rewrite Hio', Hio. f_equal. apply waits_snoc.
Qed.

(** X10.  [wait_for_funds_and_transfer] gives up on the clock.  Let the
    clock read t0 at the start.  If the first n looks at the clock are
    within [timeout] of t0 and the next one is not, and none of the n
    balance reads exceeds [initial_balance], the call makes exactly these n
    reads, one second of sleep after each, attempts no transfer and
    returns [False].  With n = 0 (a timeout already over at the first
    look) the balance is never read. *)
Theorem wait_for_funds_and_transfer_times_out
  (E : env) (fuel : nat) (key : privkey) (a recipient : address)
  (init timeout : Q) (tr : trace) (n : nat) :
  let t0 := env_time E (calls ChTime tr) in
  let out :=
    wait_for_funds_and_transfer E fuel key a recipient init timeout tr in
  (n < fuel)%nat ->
  (forall i, (i < n)%nat ->
     (env_time E (calls ChTime tr + 1 + i) - t0 < timeout)%Q) ->
  (timeout <= env_time E (calls ChTime tr + 1 + n) - t0)%Q ->
  (forall i, (i < n)%nat ->
     exists b, balance_reading E a (calls ChBalance tr + i) = Ret b /\
               (b <= init)%Q) ->
  (forall i, (i < n)%nat -> env_sleep E (calls ChSleep tr + i) = false) ->
  fst out = Ret false /\
  io (snd out) = EvTime :: (waits a n ++ EvTime :: io tr)%list.
Proof.
  intros t0 out Hn Ht Hend Hb Hs. subst out.
  destruct (wait_loop_times_out E fuel key a recipient init timeout t0
              n fuel (EvTime :: EvPrint (LogWaiting a) :: tr) Hn)
    as (tr' & Hrun & Hio).
  - intros i Hi. cbn [calls on_channel].
    replace (S (calls ChTime tr) + i)%nat
      with (calls ChTime tr + 1 + i)%nat by lia.
    apply Ht. exact Hi.
  - cbn [calls on_channel].
    replace (S (calls ChTime tr) + n)%nat
      with (calls ChTime tr + 1 + n)%nat by lia.
    exact Hend.
  - intros i Hi. cbn [calls on_channel]. apply Hb. exact Hi.
  - intros i Hi. cbn [calls on_channel]. apply Hs. exact Hi.
  - assert (Heq : wait_for_funds_and_transfer E fuel key a recipient init
                    timeout tr = (Ret false, tr')).
    { unfold wait_for_funds_and_transfer, bind, print, emit, time_time.
      cbn [calls on_channel]. fold t0. exact Hrun. }
    rewrite Heq. split; [reflexivity|]. exact Hio.
Qed.

Lemma wait_for_funds_and_transfer_times_out_witness :
  fst (wait_for_funds_and_transfer calm 5 "k" "0xk" "0xr" 0%Q 300%Q [])
  = Ret false /\
  io (snd (wait_for_funds_and_transfer calm 5 "k" "0xk" "0xr" 0%Q 300%Q []))
  = EvTime :: (waits "0xk" 2 ++ [EvTime])%list.
Proof.
  apply (wait_for_funds_and_transfer_times_out calm 5 "k" "0xk" "0xr"
           0%Q 300%Q [] 2%nat).
  - lia.
  - intros i Hi. destruct i as [|[|i]]; [| |lia]; vm_compute; reflexivity.
  - vm_compute. discriminate.
  - intros i _. exists 0%Q. split; [reflexivity|vm_compute; discriminate].
  - intros i _. reflexivity.
Defined.

(** ** The cycle counter and the baseline *)

Lemma branch_for_cycle (E : env) (fuel : nat) (acc : account)
  (recipient : address) (o : FaucetOutcome) (s s1 : bot_state) (c : ctl) :
  branch_for E fuel acc recipient o s = (Ret c, s1) ->
  match c with
  | Break => l_cycle (fst s1) = l_cycle (fst s) + 1
  | Continue =>
      l_cycle (fst s1) = l_cycle (fst s) /\
      l_reuse (fst s1) = l_reuse (fst s) /\
      l_initial_balance (fst s1) = l_initial_balance (fst s)
  end.
Proof.
  destruct s as [l tr]. intros H.
  destruct o; cbn [branch_for] in H;
    unfold success_branch, rate_limit_branch, advance_with_reuse,
      retry_same_address, unknown_failure_branch,
      bind, lift, get_locals, modify, print, emit, sleep, ret in H;
    cbn [fst snd] in H;
    run_cases H; inversion H; subst; cbn; repeat split; reflexivity.
Qed.

Lemma faucet_attempt_cycle (E : env) (fuel : nat) (acc : account)
  (recipient : address) (s s1 : bot_state) (c : ctl) :
  faucet_attempt E fuel acc recipient s = (Ret c, s1) ->
  match c with
  | Break => l_cycle (fst s1) = l_cycle (fst s) + 1
  | Continue =>
      l_cycle (fst s1) = l_cycle (fst s) /\
      l_reuse (fst s1) = l_reuse (fst s) /\
      l_initial_balance (fst s1) = l_initial_balance (fst s)
  end.
Proof.
  destruct s as [l tr]. unfold faucet_attempt.
  unfold bind at 1. unfold lift at 1. cbn [fst snd].
  destruct (request_faucet_funds E (acct_address acc) tr)
    as [[[ok body]|e|] tr1]; try discriminate.
  unfold bind at 1. unfold modify at 1. cbn [fst snd].
  intros H.
  assert (Hb : branch_for E fuel acc recipient (outcome_of ok body)
                 (set_response (ok, body) l, tr1) = (Ret c, s1)).
  { destruct ok; cbn [outcome_of branch_for]; [exact H|].
    rewrite <- failure_branch_branch_for. exact H. }
  apply branch_for_cycle in Hb. exact Hb.
Qed.

Lemma faucet_loop_cycle (E : env) (fuel : nat) (acc : account)
  (recipient : address) :
  forall (n : nat) (s s1 : bot_state),
    faucet_loop E fuel n acc recipient s = (Ret tt, s1) ->
    l_cycle (fst s1) = l_cycle (fst s) + 1.
Proof.
  induction n as [|n IH]; intros s s1 H.
  - discriminate H.
  - cbn [faucet_loop] in H. unfold bind in H.
    destruct (faucet_attempt E fuel acc recipient s) as [[c|e|] s2] eqn:Ha;
      try discriminate H.
    apply faucet_attempt_cycle in Ha.
    destruct c.
    + unfold ret in H. inversion H. subst s2. exact Ha.
    + destruct Ha as (Hc & _). rewrite <- Hc. apply IH. exact H.
Qed.

Lemma select_account_cycle (E : env) (s s1 : bot_state) (acc : account) :
  select_account E s = (Ret acc, s1) ->
  l_cycle (fst s1) = l_cycle (fst s).
Proof.
  destruct s as [l tr]. intros H.
  unfold select_account, bind, lift, get_locals, modify, print, emit, ret,
    raise in H.
  cbn [fst snd] in H.
  destruct (l_reuse l) eqn:Hr; cbn [negb] in H; cbv beta iota in H;
    cbn [fst snd set_reuse set_temp_account l_temp_account] in H;
    run_cases H; inversion H; subst; reflexivity.
Qed.

(** X11.  The cycle counter counts completed cycles.  A cycle that runs to
    its end leaves the counter one higher than it found it, however many
    faucet attempts it made; an attempt after which the orchestrator asks
    the faucet again leaves counter, account, reuse flag and baseline as
    they were. *)
Theorem cycle_counter_counts_cycles
  (E : env) (fuel : nat) (recipient : address) :
  (forall s s1 : bot_state,
     cycle_body E fuel recipient s = (Ret tt, s1) ->
     l_cycle (fst s1) = l_cycle (fst s) + 1) /\
  (forall (acc : account) (s s1 : bot_state),
     faucet_attempt E fuel acc recipient s = (Ret Continue, s1) ->
     l_cycle (fst s1) = l_cycle (fst s) /\
     l_temp_account (fst s1) = l_temp_account (fst s) /\
     l_reuse (fst s1) = l_reuse (fst s) /\
     l_initial_balance (fst s1) = l_initial_balance (fst s)).
Proof.
  split.
  - intros [l tr] s1 H.
    unfold cycle_body, bind, lift, get_locals, modify, print, emit, ret in H.
    cbn [fst snd] in H. run_cases H. inversion H; subst; clear H.
    cbn [fst snd].
    match goal with
    | Hsel : select_account E _ = (Ret ?acc, ?s0),
      Hloop : faucet_loop E fuel fuel ?acc recipient _ = (Ret ?u, ?s2) |- _ =>
        apply select_account_cycle in Hsel;
        destruct u;
        apply faucet_loop_cycle in Hloop;
        cbn [fst snd set_initial_balance l_cycle] in Hsel, Hloop;
        rewrite Hloop, Hsel; reflexivity
    end.
  - intros acc s s1 H.
    pose proof (faucet_attempt_cycle E fuel acc recipient s s1 Continue H)
      as (Hc & Hr & Hi).
    pose proof (faucet_attempt_locals E fuel acc recipient s s1 Continue H)
      as (Ha & _).
    repeat split; assumption.
Qed.

Lemma cycle_counter_counts_cycles_witness :
  l_cycle (fst (snd (cycle_body rate_limited 5 "0xr" (initial_locals, []))))
  = l_cycle initial_locals + 1.
Proof.
  apply (proj1 (cycle_counter_counts_cycles rate_limited 5 "0xr")
           (initial_locals, [])).
  vm_compute. reflexivity.
Defined.

(** X12.  A cycle that reuses its account takes a new baseline all the same:
    it draws no key, reads the balance of the account it kept and makes
    that amount its [initial_balance], whatever the baseline of the cycle
    before was; the faucet loop starts from there. *)
Theorem cycle_body_rebaselines_on_reuse
  (E : env) (fuel : nat) (recipient : address) (l : locals) (tr : trace)
  (acc : account) (b : Q) :
  l_reuse l = true ->
  l_temp_account l = Some acc ->
  balance_reading E (acct_address acc) (calls ChBalance tr) = Ret b ->
  exists tr1,
    io tr1 = EvGetBalance (acct_address acc) :: io tr /\
    cycle_body E fuel recipient (l, tr)
    = (faucet_loop E fuel fuel acc recipient ;;
       lift (print (LogNextCycle request_delay)))
        (set_initial_balance b (set_reuse false l), tr1).
Proof.
  intros Hr Ha Hb.
  destruct (get_balance_spec E (acct_address acc)
              (EvPrint (LogPrivateKey (strip_0x (private_key acc)))
                 :: EvPrint (LogGenerated (Some (acct_address acc)))
                 :: EvPrint (LogReusing (Some (acct_address acc)))
                 :: EvPrint (LogCycle (l_cycle l)) :: tr))
    as (pr & Hpr & Hg).
  cbn [calls on_channel] in Hg. rewrite Hb in Hg.
  eexists. split; [|].
  2: { unfold cycle_body.
       unfold bind at 1. unfold get_locals at 1. cbn [fst snd].
       unfold bind at 1. unfold lift at 1, print at 1, emit. cbn [fst snd].
       unfold bind at 1.
       rewrite (select_account_reuse E l _ acc Hr Ha).
       unfold bind at 1. unfold lift at 1. cbn [fst snd]. rewrite Hg.
       unfold bind at 1. unfold modify at 1. cbn [fst snd].
       unfold bind at 1. unfold lift at 1, print at 1, emit. cbn [fst snd].
       reflexivity. }
  unfold io at 1. cbn [filter is_print negb].
  fold (io (pr ++ EvGetBalance (acct_address acc)
              :: EvPrint (LogPrivateKey (strip_0x (private_key acc)))
              :: EvPrint (LogGenerated (Some (acct_address acc)))
              :: EvPrint (LogReusing (Some (acct_address acc)))
              :: EvPrint (LogCycle (l_cycle l)) :: tr)%list).
  rewrite io_app_prints by exact Hpr. reflexivity.
Qed.

Lemma cycle_body_rebaselines_on_reuse_witness :
  exists tr1,
    io tr1 = [EvGetBalance "0xa"] /\
    cycle_body generous 3 "0xr" (reuse_locals, [])
    = (faucet_loop generous 3 3 (mkAccount "a" "0xa") "0xr" ;;
       lift (print (LogNextCycle request_delay)))
        (set_initial_balance 0%Q (set_reuse false reuse_locals), tr1).
Proof.
  apply (cycle_body_rebaselines_on_reuse generous 3 "0xr" reuse_locals []
           (mkAccount "a" "0xa") 0%Q);
    reflexivity.
Defined.

(** ** Membership in a body *)

Lemma prefix_app (n h : string) :
  prefix n h = true <-> exists post, h = n ++ post.
Proof.
  revert h. induction n as [|c n IH]; intros h.
  - split; [intros _; exists h; reflexivity|intros _; destruct h; reflexivity].
  - destruct h as [|d h]; cbn [prefix].
    + split; [discriminate|intros (post & H); discriminate H].
    + destruct (ascii_dec c d) as [->|Hne].
      * rewrite IH. split.
        -- intros (post & ->). exists post. reflexivity.
        -- intros (post & H). cbn in H. inversion H. exists post.
           reflexivity.
      * split; [discriminate|].
        intros (post & H). cbn in H. inversion H. congruence.
Qed.

(** X13.  The test [marker in body] of the orchestrator and of the faucet
    client holds exactly when the body is some text, the marker, and some
    more text.  So a body with "MAX_RETRIES_EXCEEDED" anywhere in it is
    MaxRetriesExceeded whatever else it holds, and the empty body is
    UnknownFailure. *)
Theorem contains_is_substring :
  (forall n h : string,
     contains n h = true <-> exists pre post, h = pre ++ n ++ post) /\
  (forall pre post : string,
     outcome_of false (pre ++ "MAX_RETRIES_EXCEEDED" ++ post)
     = MaxRetriesExceeded) /\
  outcome_of false EmptyString = UnknownFailure.
Proof.
  assert (Hc : forall n h : string,
             contains n h = true <-> exists pre post, h = pre ++ n ++ post).
  { intros n h. induction h as [|c h IH].
    - cbn [contains]. destruct (prefix n EmptyString) eqn:Hp.
      + split; [|reflexivity]. intros _.
        apply prefix_app in Hp. destruct Hp as (post & Hp).
        exists EmptyString, post. exact Hp.
      + split; [discriminate|].
        intros (pre & post & H).
        destruct pre as [|d pre]; [|discriminate H].
        cbn in H.
        assert (Hp' : prefix n EmptyString = true)
          by (apply prefix_app; exists post; exact H).
        congruence.
    - cbn [contains]. destruct (prefix n (String c h)) eqn:Hp.
      + split; [|reflexivity]. intros _.
        apply prefix_app in Hp. destruct Hp as (post & Hp).
        exists EmptyString, post. exact Hp.
      + rewrite IH. split.
        * intros (pre & post & ->). exists (String c pre), post. reflexivity.
        * intros (pre & post & H).
          destruct pre as [|d pre].
          -- cbn in H.
             assert (Hp' : prefix n (String c h) = true)
               by (apply prefix_app; exists post; exact H).
             congruence.
          -- cbn in H. inversion H. exists pre, post. reflexivity. }
  split; [exact Hc|]. split; [|reflexivity].
  intros pre post. cbn [outcome_of]. unfold classify.
  replace (contains "MAX_RETRIES_EXCEEDED"
             (pre ++ "MAX_RETRIES_EXCEEDED" ++ post)) with true;
    [reflexivity|].
  symmetry. apply Hc. exists pre, post. reflexivity.
Qed.

(** ** A key the account library rejects *)

(** X14.  When the key drawn at the start of a cycle is rejected by the
    account library, the round costs one draw, two console lines and one
    second: no balance is read, no faucet is asked, and the locals (cycle
    counter, account, reuse flag) are as before, so the next round draws
    again under the same cycle number. *)
Theorem run_bot_iteration_on_rejected_key
  (E : env) (fuel : nat) (recipient : address) (l : locals) (tr : trace)
  (k : privkey) :
  l_reuse l = false ->
  env_urandom E (calls ChUrandom tr) = Val k ->
  from_key E k = None ->
  env_sleep E (calls ChSleep tr) = false ->
  run_bot_iteration E fuel recipient (l, tr)
  = (Ret Continue,
     (l,
      EvSleep 1 :: EvPrint (LogRetrying 1)
        :: EvPrint (LogUnexpected (l_cycle l) (OtherException "ValueError"))
        :: EvUrandom 32 :: EvPrint (LogCycle (l_cycle l)) :: tr)).
Proof.
  intros Hr Hu Hk Hs.
  unfold run_bot_iteration, cycle_body, select_account,
    generate_random_account, urandom_hex, account_from_key, answer,
    bind, lift, get_locals, modify, print, emit, sleep, ret.
  cbn [fst snd calls on_channel]. rewrite Hr.
  cbn [negb fst snd calls on_channel]. rewrite Hu.
  cbn [fst snd]. rewrite Hk.
  cbn [fst snd calls on_channel]. rewrite Hs. reflexivity.
Qed.

Lemma run_bot_iteration_on_rejected_key_witness :
  run_bot_iteration picky 3 "0xr" (initial_locals, [])
  = (Ret Continue,
     (initial_locals,
      [EvSleep 1; EvPrint (LogRetrying 1);
       EvPrint (LogUnexpected 1 (OtherException "ValueError"));
       EvUrandom 32; EvPrint (LogCycle 1)])).
Proof.
  apply (run_bot_iteration_on_rejected_key picky 3 "0xr" initial_locals []
           "a");
    reflexivity.
Defined.

(** ** What a [True] from a poller stands for *)

Lemma transfer_funds_true (E : env) (key : privkey) (a recipient : address)
  (cur : Q) (tr tr1 : trace) :
  transfer_funds E key a recipient cur tr = (Ret true, tr1) ->
  exists tx raw h rc,
    transfer_events tr1
    = EvWaitForReceipt h 120 :: EvSendRawTransaction raw
        :: EvSignTransaction tx key :: transfer_events tr /\
    env_wait_for_receipt E (calls ChReceipt tr) h = Val rc /\
    rc_status rc = 1.
Proof.
  intros H.
  unfold transfer_funds, try_except_Exception, bind,
    eth_get_transaction_count, eth_gas_price, eth_get_balance, w3_from_wei,
    sign_transaction, send_raw_transaction, wait_for_transaction_receipt,
    answer, ret, print, emit in H.
  cbv zeta in H. cbn [fst snd calls on_channel] in H.
  repeat (match type of H with
          | context [match ?x with _ => _ end] =>
              lazymatch x with
              | context [match _ with _ => _ end] => fail
              | _ => destruct x eqn:?
              end
          end;
          cbv beta iota in H; cbn [fst snd calls on_channel] in H;
          try discriminate H).
  inversion H; subst.
  do 4 eexists. split; [reflexivity|]. split; [eassumption|].
  match goal with
  | Hq : (_ =? 1) = true |- _ => apply Z.eqb_eq in Hq; exact Hq
  end.
Qed.

Lemma transfer_retry_loop_true (E : env) (key : privkey)
  (a recipient : address) (init cur : Q) :
  forall (n : nat) (rc : Z) (tr tr' : trace),
    transfer_retry_loop E n key a recipient init cur rc tr = (Ret true, tr') ->
    exists tx raw h r i rest,
      transfer_events tr'
      = EvWaitForReceipt h 120 :: EvSendRawTransaction raw
          :: EvSignTransaction tx key :: rest /\
      env_wait_for_receipt E i h = Val r /\
      rc_status r = 1.
Proof.
  induction n as [|n IH]; intros rc tr tr' H.
  - discriminate H.
  - cbn [transfer_retry_loop] in H. cbv zeta in H.
    unfold bind at 1 in H. unfold print at 1, emit in H.
    unfold bind at 1 in H.
    destruct (transfer_funds E key a recipient cur
                (EvPrint (LogAttemptTransfer (rc + 1)) :: tr))
      as [[ok|e|] tr1] eqn:Ht; try discriminate H.
    destruct ok.
    + unfold bind, print, emit, ret in H. inversion H; subst.
      apply transfer_funds_true in Ht.
      destruct Ht as (tx & raw & h & r & Hev & Hw & Hst).
      do 6 eexists. split; [|split; eassumption].
      unfold transfer_events at 1.
      cbn [filter is_transfer_event on_channel orb].
      exact Hev.
    + unfold bind at 1 in H. unfold print at 1, emit in H.
      unfold bind at 1 in H. unfold sleep at 1 in H.
      destruct (env_sleep E _); [discriminate H|].
      unfold bind at 1 in H.
      destruct (get_balance E a _) as [[b|e|] tr2]; try discriminate H.
      destruct (Qleb b init).
      * unfold bind, print, emit, ret in H. discriminate H.
      * apply IH in H. exact H.
Qed.

Lemma wait_loop_true (E : env) (fuel : nat) (key : privkey)
  (a recipient : address) (init timeout start_time : Q) :
  forall (n : nat) (tr tr' : trace),
    wait_loop E fuel n key a recipient init timeout start_time tr
    = (Ret true, tr') ->
    exists tx raw h r i rest,
      transfer_events tr'
      = EvWaitForReceipt h 120 :: EvSendRawTransaction raw
          :: EvSignTransaction tx key :: rest /\
      env_wait_for_receipt E i h = Val r /\
      rc_status r = 1.
Proof.
  induction n as [|n IH]; intros tr tr' H.
  - discriminate H.
  - cbn [wait_loop] in H.
    unfold bind at 1 in H. unfold time_time at 1 in H.
    destruct (Qltb _ timeout).
    + unfold bind at 1 in H.
      destruct (get_balance E a _) as [[b|e|] tr1]; try discriminate H.
      destruct (Qgtb b init).
      * unfold bind at 1 in H. unfold print at 1, emit in H.
        apply transfer_retry_loop_true in H. exact H.
      * unfold bind at 1 in H. unfold print at 1, emit in H.
        unfold bind at 1 in H. unfold sleep at 1 in H.
        destruct (env_sleep E _); [discriminate H|].
        apply IH in H. exact H.
    + unfold bind, print, emit, ret in H. discriminate H.
Qed.

(** X15.  A poller says [True] only for a confirmed sweep: when
    [check_balance_and_transfer] or [wait_for_funds_and_transfer] returns
    [True], the last thing done on the chain was to sign a transaction,
    send it and wait (120 at most) for its receipt, and that receipt came
    back with status 1. *)
Theorem pollers_true_means_confirmed
  (E : env) (fuel : nat) (key : privkey) (a recipient : address)
  (init timeout : Q) (N : Z) (tr tr' : trace) :
  check_balance_and_transfer E fuel key a recipient init N tr
  = (Ret true, tr') \/
  wait_for_funds_and_transfer E fuel key a recipient init timeout tr
  = (Ret true, tr') ->
  exists tx raw h r i rest,
    transfer_events tr'
    = EvWaitForReceipt h 120 :: EvSendRawTransaction raw
        :: EvSignTransaction tx key :: rest /\
    env_wait_for_receipt E i h = Val r /\
    rc_status r = 1.
Proof.
  intros [H|H].
  - unfold check_balance_and_transfer in H. unfold bind at 1 in H.
    destruct (poll_balance E a init N (range N) 0%Q tr)
      as [[[funds cur]|e|] tr1]; try discriminate H.
    destruct funds; [|discriminate H].
    apply transfer_retry_loop_true in H. exact H.
  - unfold wait_for_funds_and_transfer in H.
    unfold bind at 1 in H. unfold print at 1, emit in H.
    unfold bind at 1 in H. unfold time_time at 1 in H.
    apply wait_loop_true in H. exact H.
Qed.

Lemma pollers_true_means_confirmed_witness :
  exists tx raw h r i rest,
    transfer_events
      (snd (wait_for_funds_and_transfer generous 3 "a" "0xa" "0xr" 0%Q 300%Q
              [EvGetBalance "0xa"]))
    = EvWaitForReceipt h 120 :: EvSendRawTransaction raw
        :: EvSignTransaction tx "a" :: rest /\
    env_wait_for_receipt generous i h = Val r /\
    rc_status r = 1.
Proof.
  apply (pollers_true_means_confirmed generous 3 "a" "0xa" "0xr" 0%Q 300%Q
           10 [EvGetBalance "0xa"]).
  right. vm_compute. reflexivity.
Defined.

(** ** A faucet that says yes and does not pay *)

Lemma wait_loop_never_true (E : env) (fuel : nat) (key : privkey)
  (a recipient : address) (init timeout start_time : Q) :
  (forall i, exists b, balance_reading E a i = Ret b /\ (b <= init)%Q) ->
  forall (n : nat) (tr tr' : trace) (ok : bool),
    wait_loop E fuel n key a recipient init timeout start_time tr
    = (Ret ok, tr') ->
    ok = false.
Proof.
  intros Hb. induction n as [|n IH]; intros tr tr' ok H.
  - discriminate H.
  - cbn [wait_loop] in H.
    unfold bind at 1 in H. unfold time_time at 1 in H.
    destruct (Qltb _ timeout).
    + unfold bind at 1 in H.
      destruct (get_balance_spec E a (EvTime :: tr)) as (pr & Hpr & Hg).
      destruct (Hb (calls ChBalance (EvTime :: tr))) as (b & Hr & Hle).
      rewrite Hr in Hg. rewrite Hg in H.
      apply Qgtb_false in Hle. rewrite Hle in H.
      unfold bind at 1 in H. unfold print at 1, emit in H.
      unfold bind at 1 in H. unfold sleep at 1 in H.
      destruct (env_sleep E _); [discriminate H|].
      apply IH in H. exact H.
    + unfold bind, print, emit, ret in H. inversion H. reflexivity.
Qed.

Lemma request_faucet_funds_ok_on_200 (E : env) (a : address)
  (tr tr1 : trace) (ok : bool) (body : bytes) :
  (forall n, exists content, env_post E n a = Val (200, content)) ->
  request_faucet_funds E a tr = (Ret (ok, body), tr1) ->
  ok = true.
Proof.
  intros Hpost H. unfold request_faucet_funds in H.
  destruct (request_faucet_funds_try E a tr) as [r tr0] eqn:Ht.
  unfold request_faucet_funds_try, bind, print, emit, requests_post, answer,
    ret in Ht.
  cbn [fst snd] in Ht.
  destruct (change_tor_identity E (EvPrint (LogPreparingIp a) :: tr))
    as [[changed|e|] trc] eqn:Hc.
  - destruct changed; cbn [negb fst snd] in Ht;
      match type of Ht with
      | context [env_post E ?i a] =>
          destruct (Hpost i) as (content & Hp); rewrite Hp in Ht
      end;
      cbn [fst snd Z.eqb Pos.eqb] in Ht;
      inversion Ht; subst; inversion H; reflexivity.
  - assert (He : e = KeyboardInterrupt).
    { apply (proj2 (sound_change_tor_identity E a _ _ _ Hc) e eq_refl). }
    subst e. inversion Ht; subst. discriminate H.
  - inversion Ht; subst. discriminate H.
Qed.

Lemma faucet_attempt_unpaid (E : env) (fuel : nat) (acc : account)
  (recipient : address) (s s1 : bot_state) (c : ctl) :
  (forall n, exists content,
      env_post E n (acct_address acc) = Val (200, content)) ->
  (forall i, exists b,
      balance_reading E (acct_address acc) i = Ret b /\
      (b <= l_initial_balance (fst s))%Q) ->
  faucet_attempt E fuel acc recipient s = (Ret c, s1) ->
  c = Continue /\ l_initial_balance (fst s1) = l_initial_balance (fst s).
Proof.
  destruct s as [l tr]. cbn [fst snd]. intros Hpost Hb H.
  unfold faucet_attempt in H.
  unfold bind at 1 in H. unfold lift at 1 in H. cbn [fst snd] in H.
  destruct (request_faucet_funds E (acct_address acc) tr)
    as [[[ok body]|e|] tr1] eqn:Hreq; try discriminate H.
  apply (request_faucet_funds_ok_on_200 E _ _ _ _ _ Hpost) in Hreq.
  subst ok.
  unfold bind at 1 in H. unfold modify at 1 in H. cbn [fst snd] in H.
  unfold success_branch in H.
  unfold bind at 1 in H. unfold get_locals at 1 in H. cbn [fst snd] in H.
  unfold bind at 1 in H. unfold lift at 1 in H.
  cbn [fst snd set_response l_initial_balance] in H.
  destruct (wait_for_funds_and_transfer E fuel (private_key acc)
              (acct_address acc) recipient (l_initial_balance l) 300%Q tr1)
    as [[ok|e|] tr2] eqn:Hw; try discriminate H.
  assert (Hok : ok = false).
  { unfold wait_for_funds_and_transfer in Hw.
    unfold bind at 1 in Hw. unfold print at 1, emit in Hw.
    unfold bind at 1 in Hw. unfold time_time at 1 in Hw.
    apply (wait_loop_never_true E fuel _ _ _ _ _ _ Hb) in Hw. exact Hw. }
  subst ok.
  unfold bind, lift, print, emit, sleep, ret in H. cbn [fst snd] in H.
  destruct (env_sleep E _); [discriminate H|].
  inversion H; subst. split; reflexivity.
Qed.

(** X16.  Nothing bounds the retries after a faucet success.  If the faucet
    answers 200 to every request and no balance read ever exceeds the
    baseline of the cycle, the inner loop never ends the cycle, however
    long it runs: each round waits out the time-bounded poller, sleeps two
    seconds and asks the faucet again for the same account. *)
Theorem faucet_loop_never_ends_unpaid
  (E : env) (fuel : nat) (acc : account) (recipient : address)
  (s : bot_state) :
  (forall n, exists content,
      env_post E n (acct_address acc) = Val (200, content)) ->
  (forall i, exists b,
      balance_reading E (acct_address acc) i = Ret b /\
      (b <= l_initial_balance (fst s))%Q) ->
  forall n : nat, fst (faucet_loop E fuel n acc recipient s) <> Ret tt.
Proof.
  intros Hpost Hb n. revert s Hb.
  induction n as [|n IH]; intros s Hb.
  - discriminate.
  - cbn [faucet_loop]. unfold bind.
    destruct (faucet_attempt E fuel acc recipient s) as [[c|e|] s1] eqn:Ha;
      try discriminate.
    destruct (faucet_attempt_unpaid E fuel acc recipient s s1 c Hpost Hb Ha)
      as (Hc & Hi).
    subst c. apply IH. rewrite Hi. exact Hb.
Qed.

Lemma faucet_loop_never_ends_unpaid_witness :
  fst (faucet_loop calm 2 3 (mkAccount "a" "0xa") "0xr" (sample_locals, []))
  <> Ret tt.
Proof.
  apply (faucet_loop_never_ends_unpaid calm 2 (mkAccount "a" "0xa") "0xr"
           (sample_locals, [])).
  - intros n. exists "ok". reflexivity.
  - intros i. exists 0%Q. split; [reflexivity|vm_compute; discriminate].
Defined.
